(** * Hetzner node driver: resource aggregator and configuration reconciler

    A shallow embedding of [pkg/hetzner-node-driver/hcloud.ts] (the
    [HetznerCloud] client that pages through the provider catalogues and
    turns them into select options) and of the [<script setup>] block of the
    machine-config component (the two-way synchronisation between the
    host's machine configuration record [props.value] and the reactive
    [serverConfiguration] object, with its validity signal).

    Conventions of the embedding:
    - a JavaScript [number] holding an id is an integer or [NaN]; fractions
      and infinities are outside the model;
    - an optional field ([x?: T]) is an [option]; [None] is [undefined];
    - a [Record<string, string>] is a finite map ([gmap]);
    - every callback of the component runs to completion up to its first
      [await]; what follows the [await] is a step of its own;
    - the host built-ins whose result depends on the locale or on floating
      point ([localeCompare], [toFixed]) are fields of the class [Host]. *)

From Stdlib Require Import ZArith String Ascii List Lia Bool.
From Stdlib Require Import DecimalString DecimalZ DecimalPos Sorted Permutation.
From stdpp Require Import base option list gmap strings.

Local Open Scope string_scope.
Local Open Scope Z_scope.

(** ** JavaScript values and built-ins used by the sources *)

Module JS.

(** A [number] that carries an id. *)
Inductive number : Set :=
| Int (z : Z)
| NaN.

(** A loosely typed value of the host record ([any]), as far as the
    decode rules distinguish it. *)
Inductive value : Set :=
| Undefined
| Null
| Num (n : number)
| Str (s : string).

(** An element of an id array of the host record. *)
Inductive id_value : Set :=
| IdStr (s : string)
| IdNum (n : number).

(** [Number.prototype.toString] on an integer or [NaN]: the decimal
    digits, as the engine prints them for the integers it represents
    exactly and below [1e21]. *)
Definition number_toString (n : number) : string :=
  match n with
  | Int z => NilZero.string_of_int (Z.to_int z)
  | NaN => "NaN"
  end.

(** White space skipped by the string-to-number conversion. *)
Definition is_space (c : ascii) : bool :=
  let n := nat_of_ascii c in
  (Nat.eqb n 32 || (Nat.leb 9 n && Nat.leb n 13))%bool.

Fixpoint trimStart (s : string) : string :=
  match s with
  | EmptyString => EmptyString
  | String c r => if is_space c then trimStart r else s
  end.

Fixpoint trimEnd (s : string) : string :=
  match s with
  | EmptyString => EmptyString
  | String c r =>
      match trimEnd r with
      | EmptyString => if is_space c then EmptyString else String c EmptyString
      | r' => String c r'
      end
  end.

Definition trim (s : string) : string := trimEnd (trimStart s).

(** The value of a non-empty run of decimal digits. *)
Definition digits (s : string) : option Z :=
  match s with
  | EmptyString => None
  | _ => Z.of_uint <$> NilEmpty.uint_of_string s
  end.

Definition signed (neg : bool) (s : string) : number :=
  match digits s with
  | Some z => Int (if neg then - z else z)
  | None => NaN
  end.

(** [Number(s)] for a string: white space is trimmed, the empty string is
    [0], an optionally signed decimal integer is its value, anything else
    is [NaN]. The engine also reads fractions, exponents and radix
    prefixes; such strings are outside the ids modelled here. *)
Definition Number_of_string (s : string) : number :=
  match trim s with
  | EmptyString => Int 0
  | String "-"%char r => signed true r
  | String "+"%char r => signed false r
  | t => signed false t
  end.

(** [Number(v)]. *)
Definition Number (v : value) : number :=
  match v with
  | Undefined => NaN
  | Null => Int 0
  | Num n => n
  | Str s => Number_of_string s
  end.

(** Truthiness. *)
Definition truthy_number (n : number) : bool :=
  match n with
  | Int z => negb (z =? 0)
  | NaN => false
  end.

Definition truthy_string (s : string) : bool :=
  match s with
  | EmptyString => false
  | _ => true
  end.

Definition truthy_opt {A} (t : A -> bool) (o : option A) : bool :=
  match o with
  | Some a => t a
  | None => false
  end.

Definition truthy_flag (o : option bool) : bool := truthy_opt id o.

(** [s.split(sep)] for a one-character separator: every occurrence
    splits, and the result is never empty. *)
Fixpoint split (sep : ascii) (s : string) : list string :=
  match s with
  | EmptyString => [EmptyString]
  | String c r =>
      if Ascii.eqb c sep then EmptyString :: split sep r
      else match split sep r with
           | h :: t => String c h :: t
           | [] => [String c EmptyString]
           end
  end.

(** A template-literal hole filled with a possibly undefined string. *)
Definition interpolate (v : option string) : string :=
  match v with
  | Some s => s
  | None => "undefined"
  end.

(** [Object.entries] of a string-keyed object. The entries are those of
    the engine; their order is that of [map_to_list], where the engine
    enumerates in insertion order. *)
Definition Object_entries (o : gmap string (option string))
  : list (string * option string) :=
  map_to_list o.

(** [Object.fromEntries] over arrays of strings: element 0 is the key,
    element 1 the value, later entries overwrite earlier ones. *)
Definition entry_key (e : list string) : string := interpolate (e !! 0%nat).
Definition entry_value (e : list string) : option string := e !! 1%nat.

Definition Object_fromEntries (es : list (list string))
  : gmap string (option string) :=
  foldl (fun o e => <[entry_key e := entry_value e]> o) ∅ es.

(** [String.prototype.toUpperCase] on the ASCII letters. *)
Definition upper_char (c : ascii) : ascii :=
  let n := nat_of_ascii c in
  if (Nat.leb 97 n && Nat.leb n 122)%bool then ascii_of_nat (n - 32) else c.

Fixpoint toUpperCase (s : string) : string :=
  match s with
  | EmptyString => EmptyString
  | String c r => String (upper_char c) (toUpperCase r)
  end.

End JS.

(** ** The resource aggregator ([hcloud.ts]) *)

(** Host built-ins whose result is fixed by the engine, not by the
    sources. *)
Class Host := {
  (** the sign of [a.localeCompare(b)] *)
  localeCompare : string -> string -> comparison;
  (** [Number(s).toFixed(2)] *)
  toFixed2 : string -> string;
}.

Module LocationResponse.
Record t := {
  name : string;
  city : string;
  country : string;
  network_zone : string;
}.
End LocationResponse.

Module Price.
Record t := {
  location : string;
  price_monthly_gross : string;
}.
End Price.

Inductive CpuType := shared | dedicated.

Module ServerTypeResponse.
Record t := {
  name : string;
  deprecated : bool;
  architecture : string;
  cores : JS.number;
  memory : JS.number;
  disk : JS.number;
  cpu_type : CpuType;
  prices : list Price.t;
}.
End ServerTypeResponse.

Module ImageResponse.
Record t := {
  id : JS.number;
  name : string;
  architecture : string;
  description : string;
}.
End ImageResponse.

Module NetworkResponse.
Record t := {
  id : JS.number;
  name : string;
  ip_range : string;
}.
End NetworkResponse.

(** Placement groups, firewalls and ssh keys have the same two fields. *)
Module NamedResponse.
Record t := {
  id : JS.number;
  name : string;
}.
End NamedResponse.

(** [value: string | number] *)
Inductive OptionValue :=
| VStr (s : string)
| VNum (n : JS.number).

Record HetznerOption := {
  label : string;
  value : OptionValue;
  city : option string;
  country : option string;
  networkZone : option string;
  disabled : option bool;
  kind : option string;
}.

Module Transport.

(** The parsed body of one page: the item array under the key of the
    resource kind, and [meta.pagination.last_page]; either may be
    missing. The item array, when it is there, is an array of items of the
    declared interface: a value under the item key that is not an array
    (the single-request copy answers it with [[]], the paged client
    concatenates it as one element) and items that lack fields are outside
    this type. *)
Record Page (A : Type) := {
  items : option (list A);
  last_page : option nat;
}.
Arguments items {A} _.
Arguments last_page {A} _.

(** What [fetch] does for one request: the promise rejects, or a
    response arrives with its status, its text and its body when that
    parses as JSON. *)
Inductive Outcome (A : Type) :=
| Rejected
| Responded (status : nat) (text : string) (json : option (Page A)).
Arguments Rejected {A}.
Arguments Responded {A} _ _ _.

(** [response.ok] *)
Definition ok (status : nat) : bool :=
  (Nat.leb 200 status && Nat.leb status 299)%bool.

(** The provider seen through the proxy: one outcome per resource path
    and page number. *)
Record Api := {
  locations : nat -> Outcome LocationResponse.t;
  server_types : nat -> Outcome ServerTypeResponse.t;
  images : nat -> Outcome ImageResponse.t;
  placement_groups : nat -> Outcome NamedResponse.t;
  networks : nat -> Outcome NetworkResponse.t;
  firewalls : nat -> Outcome NamedResponse.t;
  ssh_keys : nat -> Outcome NamedResponse.t;
}.

End Transport.

Inductive Error :=
| NetworkError
| AuthenticationFailed
| HttpError (status : nat) (message : string)
| SyntaxError.

(** How a promise settles. *)
Inductive Completion (A : Type) :=
| Return (a : A)
| Throw (e : Error).
Arguments Return {A} _.
Arguments Throw {A} _.

(** [try { body } catch (error) { handler }]; [None] is a body that is
    still running when the fuel is spent. *)
Definition try_catch {A} (body : option (Completion A))
    (handler : Error -> Completion A) : option (Completion A) :=
  match body with
  | Some (Throw e) => Some (handler e)
  | settled => settled
  end.

(** [Array.prototype.sort] with a comparator: a stable insertion sort. *)
Fixpoint Array_insert {A} (cmp : A -> A -> comparison) (x : A) (l : list A)
  : list A :=
  match l with
  | [] => [x]
  | y :: r =>
      match cmp x y with
      | Gt => y :: Array_insert cmp x r
      | _ => x :: l
      end
  end.

Definition Array_sort {A} (cmp : A -> A -> comparison) (l : list A) : list A :=
  foldr (Array_insert cmp) [] l.

Module HetznerCloud.
Import Transport.

(** [request(endpoint)]: resolves with the parsed body or throws. *)
Definition request {A} (transport : nat -> Outcome A) (page : nat)
  : Completion (Page A) :=
  match transport page with
  | Rejected => Throw NetworkError
  | Responded status text json =>
      if negb (ok status) then
        if Nat.eqb status 401 then Throw AuthenticationFailed
        else Throw (HttpError status text)
      else
        match json with
        | Some data => Return data
        | None => Throw SyntaxError
        end
  end.

(** [response?.items?.length && page <= response?.meta?.pagination?.last_page] *)
Definition more_pages {A} (response : Page A) (page : nat) : bool :=
  match items response with
  | Some (_ :: _) =>
      match last_page response with
      | Some last => Nat.leb page last
      | None => false
      end
  | _ => false
  end.

(** The [do ... while] loop that every operation repeats with its own
    path: [page] is the next page to request, [acc] what has been
    concatenated so far. *)
Fixpoint fetchPages {A} (fuel : nat) (transport : nat -> Outcome A)
    (page : nat) (acc : list A) : option (Completion (list A)) :=
  match fuel with
  | O => None
  | S fuel' =>
      match request transport page with
      | Throw e => Some (Throw e)
      | Return response =>
          let acc' := (acc ++ default [] (items response))%list in
          if more_pages response (S page)
          then fetchPages fuel' transport (S page) acc'
          else Some (Return acc')
      end
  end.

(** The rest of a [try] block after the loop. *)
Definition and_then {A B} (c : option (Completion A)) (k : A -> B)
  : option (Completion B) :=
  match c with
  | None => None
  | Some (Throw e) => Some (Throw e)
  | Some (Return a) => Some (Return (k a))
  end.

(** The shape shared by the seven operations: the loop and what follows
    it inside [try], and [catch (error) { return []; }]. *)
Definition fetchKind {A} (transform : list A -> list HetznerOption)
    (fuel : nat) (transport : nat -> Outcome A)
  : option (Completion (list HetznerOption)) :=
  try_catch
    (and_then (fetchPages fuel transport 1 []) transform)
    (fun _ => Return []).

(** What the loop has accumulated when it ends normally ([[]] when it
    throws or is still running). *)
Definition accumulated {A} (fuel : nat) (transport : nat -> Outcome A)
  : list A :=
  match fetchPages fuel transport 1 [] with
  | Some (Return items) => items
  | _ => []
  end.

(** The lookup in the table of five codes, with the code itself as the
    fallback. Keys that the table object inherits from its prototype are
    not modelled. *)
Definition getCountryName (countryCode : string) : string :=
  if String.eqb countryCode "DE" then "Germany"
  else if String.eqb countryCode "FI" then "Finland"
  else if String.eqb countryCode "US" then "USA"
  else if String.eqb countryCode "SG" then "Singapore"
  else if String.eqb countryCode "AU" then "Australia"
  else countryCode.

Section WithHost.
Context {host : Host}.

Definition compareLocations (a b : LocationResponse.t) : comparison :=
  if negb (String.eqb (LocationResponse.network_zone a)
                      (LocationResponse.network_zone b))
  then localeCompare (LocationResponse.network_zone a)
                     (LocationResponse.network_zone b)
  else localeCompare (LocationResponse.name a) (LocationResponse.name b).

Definition locationOption (location : LocationResponse.t) : HetznerOption :=
  let countryName := getCountryName (LocationResponse.country location) in
  {| value := VStr (LocationResponse.name location);
     label := JS.toUpperCase (LocationResponse.name location) ++ " - "
              ++ LocationResponse.city location ++ ", " ++ countryName;
     city := Some (LocationResponse.city location);
     country := Some countryName;
     networkZone := Some (LocationResponse.network_zone location);
     disabled := None;
     kind := None |}.

Definition locationOptions (locations : list LocationResponse.t)
  : list HetznerOption :=
  if Nat.eqb (length locations) 0 then []
  else map locationOption (Array_sort compareLocations locations).

Definition getLocations (fuel : nat) (api : Api)
  : option (Completion (list HetznerOption)) :=
  fetchKind locationOptions fuel (locations api).

Definition priced_in (location : string) (type : ServerTypeResponse.t) : bool :=
  existsb (fun price => String.eqb (Price.location price) location)
          (ServerTypeResponse.prices type).

Definition compareNames (a b : ServerTypeResponse.t) : comparison :=
  localeCompare (ServerTypeResponse.name a) (ServerTypeResponse.name b).

Definition is_cpu (c : CpuType) (type : ServerTypeResponse.t) : bool :=
  match c, ServerTypeResponse.cpu_type type with
  | shared, shared | dedicated, dedicated => true
  | _, _ => false
  end.

Definition priceLabel (location : option string) (type : ServerTypeResponse.t)
  : string :=
  if JS.truthy_opt JS.truthy_string location then
    match find (fun p => String.eqb (Price.location p) (default "" location))
               (ServerTypeResponse.prices type) with
    | Some price => "€" ++ toFixed2 (Price.price_monthly_gross price) ++ "/mo, "
    | None => ""
    end
  else "".

Definition formatServerType (location : option string)
    (type : ServerTypeResponse.t) : HetznerOption :=
  {| value := VStr (ServerTypeResponse.name type);
     label := ServerTypeResponse.name type ++ " ("
              ++ priceLabel location type
              ++ ServerTypeResponse.architecture type ++ ", "
              ++ JS.number_toString (ServerTypeResponse.cores type) ++ " vCPU, "
              ++ JS.number_toString (ServerTypeResponse.memory type) ++ " GB RAM, "
              ++ JS.number_toString (ServerTypeResponse.disk type) ++ " GB SSD)";
     city := None; country := None; networkZone := None;
     disabled := None; kind := None |}.

Definition dedicatedHeader : HetznerOption :=
  {| label := "━━━ DEDICATED CPU SERVERS ━━━";
     value := VStr "dedicated-header";
     city := None; country := None; networkZone := None;
     disabled := Some true;
     kind := Some "group" |}.

Definition sharedHeader : HetznerOption :=
  {| label := "━━━ SHARED CPU SERVERS ━━━";
     value := VStr "shared-header";
     city := None; country := None; networkZone := None;
     disabled := Some true;
     kind := Some "group" |}.

(** The types kept by the two filters. *)
Definition keptServerTypes (location : option string)
    (serverTypes : list ServerTypeResponse.t) : list ServerTypeResponse.t :=
  let serverTypes :=
    List.filter (fun type => negb (ServerTypeResponse.deprecated type))
                serverTypes in
  if JS.truthy_opt JS.truthy_string location then
    List.filter (priced_in (default "" location)) serverTypes
  else serverTypes.

Definition sharedTypes (location : option string)
    (serverTypes : list ServerTypeResponse.t) : list ServerTypeResponse.t :=
  Array_sort compareNames
    (List.filter (is_cpu shared) (keptServerTypes location serverTypes)).

Definition dedicatedTypes (location : option string)
    (serverTypes : list ServerTypeResponse.t) : list ServerTypeResponse.t :=
  Array_sort compareNames
    (List.filter (is_cpu dedicated) (keptServerTypes location serverTypes)).

Definition serverTypeOptions (location : option string)
    (serverTypes : list ServerTypeResponse.t) : list HetznerOption :=
  if Nat.eqb (length serverTypes) 0 then []
  else
    let sharedTypes := sharedTypes location serverTypes in
    let dedicatedTypes := dedicatedTypes location serverTypes in
    let result := [] in
    let result :=
      if Nat.ltb 0 (length dedicatedTypes)
      then ((result ++ [dedicatedHeader])
              ++ map (formatServerType location) dedicatedTypes)%list
      else result in
    let result :=
      if Nat.ltb 0 (length sharedTypes)
      then
        let result :=
          if Nat.ltb 0 (length dedicatedTypes)
          then (result ++ [sharedHeader])%list
          else result in
        (result ++ map (formatServerType location) sharedTypes)%list
      else result in
    result.

Definition getServerTypes (fuel : nat) (api : Api) (location : option string)
  : option (Completion (list HetznerOption)) :=
  fetchKind (serverTypeOptions location) fuel (server_types api).

Definition compareImages (a b : ImageResponse.t) : comparison :=
  localeCompare (ImageResponse.name a) (ImageResponse.name b).

Definition imageOption (image : ImageResponse.t) : HetznerOption :=
  {| value := VNum (ImageResponse.id image);
     label := ImageResponse.name image ++ " ("
              ++ ImageResponse.architecture image ++ ") - "
              ++ ImageResponse.description image;
     city := None; country := None; networkZone := None;
     disabled := None; kind := None |}.

Definition imageOptions (images : list ImageResponse.t) : list HetznerOption :=
  map imageOption (Array_sort compareImages images).

Definition getImages (fuel : nat) (api : Api)
  : option (Completion (list HetznerOption)) :=
  fetchKind imageOptions fuel (images api).

End WithHost.

Definition namedOption (item : NamedResponse.t) : HetznerOption :=
  {| value := VNum (NamedResponse.id item);
     label := NamedResponse.name item;
     city := None; country := None; networkZone := None;
     disabled := None; kind := None |}.

Definition namedOptions (items : list NamedResponse.t) : list HetznerOption :=
  if Nat.eqb (length items) 0 then [] else map namedOption items.

Definition networkOption (network : NetworkResponse.t) : HetznerOption :=
  {| value := VNum (NetworkResponse.id network);
     label := NetworkResponse.name network ++ " ("
              ++ NetworkResponse.ip_range network ++ ")";
     city := None; country := None; networkZone := None;
     disabled := None; kind := None |}.

Definition networkOptions (networks : list NetworkResponse.t)
  : list HetznerOption :=
  if Nat.eqb (length networks) 0 then [] else map networkOption networks.

Definition getPlacementGroups (fuel : nat) (api : Api)
  : option (Completion (list HetznerOption)) :=
  fetchKind namedOptions fuel (placement_groups api).

Definition getNetworks (fuel : nat) (api : Api)
  : option (Completion (list HetznerOption)) :=
  fetchKind networkOptions fuel (networks api).

Definition getFirewalls (fuel : nat) (api : Api)
  : option (Completion (list HetznerOption)) :=
  fetchKind namedOptions fuel (firewalls api).

Definition getSshKeys (fuel : nat) (api : Api)
  : option (Completion (list HetznerOption)) :=
  fetchKind namedOptions fuel (ssh_keys api).

(** The resource kinds, with the filter of the one operation that takes
    one. *)
Inductive Kind :=
| Locations
| ServerTypes (location : option string)
| Images
| PlacementGroups
| Networks
| Firewalls
| SshKeys.

Definition fetch `{Host} (k : Kind) (fuel : nat) (api : Api)
  : option (Completion (list HetznerOption)) :=
  match k with
  | Locations => getLocations fuel api
  | ServerTypes location => getServerTypes fuel api location
  | Images => getImages fuel api
  | PlacementGroups => getPlacementGroups fuel api
  | Networks => getNetworks fuel api
  | Firewalls => getFirewalls fuel api
  | SshKeys => getSshKeys fuel api
  end.

(** The property that becomes the [value] of an item's option, over the
    items accumulated for a kind. *)
Definition fetched_keys (k : Kind) (fuel : nat) (api : Api) : list OptionValue :=
  match k with
  | Locations =>
      map (fun i => VStr (LocationResponse.name i))
          (accumulated fuel (locations api))
  | ServerTypes _ =>
      map (fun i => VStr (ServerTypeResponse.name i))
          (accumulated fuel (server_types api))
  | Images =>
      map (fun i => VNum (ImageResponse.id i)) (accumulated fuel (images api))
  | PlacementGroups =>
      map (fun i => VNum (NamedResponse.id i))
          (accumulated fuel (placement_groups api))
  | Networks =>
      map (fun i => VNum (NetworkResponse.id i))
          (accumulated fuel (networks api))
  | Firewalls =>
      map (fun i => VNum (NamedResponse.id i)) (accumulated fuel (firewalls api))
  | SshKeys =>
      map (fun i => VNum (NamedResponse.id i)) (accumulated fuel (ssh_keys api))
  end.

End HetznerCloud.

(** The second copy of the client in the repository requests each path
    once, without a page parameter, and reads the one response. *)
Module HetznerCloudSinglePage.
Import Transport.

Section WithHost.
Context {host : Host}.

(** [if (!response?.locations || !Array.isArray(response.locations)) return []]
    and then the sort and the map of the paged client. *)
Definition getLocations (api : Api) : Completion (list HetznerOption) :=
  match
    match HetznerCloud.request (locations api) 1 with
    | Throw e => Throw e
    | Return response =>
        match items response with
        | None => Return []
        | Some locations =>
            Return (map HetznerCloud.locationOption
                      (Array_sort HetznerCloud.compareLocations locations))
        end
    end
  with
  | Throw _ => Return []
  | settled => settled
  end.

(** The shape of the other operations of this copy: one request,
    [if (!response?.items || !Array.isArray(response.items)) return []],
    the transform, and [catch (error) { return []; }]. *)
Definition once {A} (transform : list A -> list HetznerOption)
    (transport : nat -> Outcome A) : Completion (list HetznerOption) :=
  match
    match HetznerCloud.request transport 1 with
    | Throw e => Throw e
    | Return response =>
        match items response with
        | None => Return []
        | Some found => Return (transform found)
        end
    end
  with
  | Throw _ => Return []
  | settled => settled
  end.

(** The filters, the two sorted classes and the pushes of
    [getServerTypes]; this copy has no test for an empty array in front of
    them. *)
Definition serverTypeOptions (location : option string)
    (serverTypes : list ServerTypeResponse.t) : list HetznerOption :=
  let sharedTypes := HetznerCloud.sharedTypes location serverTypes in
  let dedicatedTypes := HetznerCloud.dedicatedTypes location serverTypes in
  let result := [] in
  let result :=
    if Nat.ltb 0 (length dedicatedTypes)
    then ((result ++ [HetznerCloud.dedicatedHeader])
            ++ map (HetznerCloud.formatServerType location) dedicatedTypes)%list
    else result in
  let result :=
    if Nat.ltb 0 (length sharedTypes)
    then
      let result :=
        if Nat.ltb 0 (length dedicatedTypes)
        then (result ++ [HetznerCloud.sharedHeader])%list
        else result in
      (result ++ map (HetznerCloud.formatServerType location) sharedTypes)%list
    else result in
  result.

Definition getServerTypes (api : Api) (location : option string)
  : Completion (list HetznerOption) :=
  once (serverTypeOptions location) (server_types api).

Definition getImages (api : Api) : Completion (list HetznerOption) :=
  once (fun images =>
          map HetznerCloud.imageOption
              (Array_sort HetznerCloud.compareImages images))
       (images api).

Definition getPlacementGroups (api : Api) : Completion (list HetznerOption) :=
  once (map HetznerCloud.namedOption) (placement_groups api).

Definition getNetworks (api : Api) : Completion (list HetznerOption) :=
  once (map HetznerCloud.networkOption) (networks api).

Definition getFirewalls (api : Api) : Completion (list HetznerOption) :=
  once (map HetznerCloud.namedOption) (firewalls api).

Definition getSshKeys (api : Api) : Completion (list HetznerOption) :=
  once (map HetznerCloud.namedOption) (ssh_keys api).

Definition fetch (k : HetznerCloud.Kind) (api : Api)
  : Completion (list HetznerOption) :=
  match k with
  | HetznerCloud.Locations => getLocations api
  | HetznerCloud.ServerTypes location => getServerTypes api location
  | HetznerCloud.Images => getImages api
  | HetznerCloud.PlacementGroups => getPlacementGroups api
  | HetznerCloud.Networks => getNetworks api
  | HetznerCloud.Firewalls => getFirewalls api
  | HetznerCloud.SshKeys => getSshKeys api
  end.

End WithHost.
End HetznerCloudSinglePage.

(** ** The configuration reconciler (the machine-config component) *)

(** [props.value]: the machine configuration record owned by the host. *)
Module Value.
Record t := {
  serverType : JS.value;
  serverLocation : JS.value;
  imageId : JS.value;
  placementGroup : JS.value;
  (** [None]: anything that [Array.isArray] rejects *)
  networks : option (list JS.id_value);
  firewalls : option (list JS.id_value);
  existingKeyId : JS.value;
  usePrivateNetwork : option bool;
  disablePublic : option bool;
  disablePublicIpv4 : option bool;
  disablePublicIpv6 : option bool;
  additionalUserData : option string;
  userDataFromFile : option bool;
  (** [None]: [undefined] or [null] *)
  serverLabel : option (list string);
}.
End Value.

(** [interface ServerConfiguration] *)
Module ServerConfiguration.
Record t := {
  disablePublicNetwork : option bool;
  disablePublicIpv4 : option bool;
  disablePublicIpv6 : option bool;
  usePrivateNetwork : option bool;
  sshKeyId : option JS.number;
  firewallIds : option (list JS.number);
  networkIds : option (list JS.number);
  placementGroupId : option JS.number;
  serverImage : option JS.number;
  serverType : option string;
  serverLocation : option string;
  additionalUserData : option string;
  (** a label decoded from an entry without [=] has no value *)
  serverLabels : option (gmap string (option string));
}.

Definition with_serverType (x : option string) (c : t) : t :=
  {| disablePublicNetwork := disablePublicNetwork c;
     disablePublicIpv4 := disablePublicIpv4 c;
     disablePublicIpv6 := disablePublicIpv6 c;
     usePrivateNetwork := usePrivateNetwork c;
     sshKeyId := sshKeyId c;
     firewallIds := firewallIds c;
     networkIds := networkIds c;
     placementGroupId := placementGroupId c;
     serverImage := serverImage c;
     serverType := x;
     serverLocation := serverLocation c;
     additionalUserData := additionalUserData c;
     serverLabels := serverLabels c |}.
End ServerConfiguration.

Module Reconciler.
Import Transport.
Module V := Value.
Module C := ServerConfiguration.

(** [interface HetznerOptions] *)
Record HetznerOptions := {
  o_locations : list HetznerOption;
  o_serverTypes : list HetznerOption;
  o_serverImages : list HetznerOption;
  o_sshKeys : list HetznerOption;
  o_firewalls : list HetznerOption;
  o_networks : list HetznerOption;
  o_placementGroups : list HetznerOption;
}.

Definition with_o_serverTypes (x : list HetznerOption) (o : HetznerOptions)
  : HetznerOptions :=
  {| o_locations := o_locations o;
     o_serverTypes := x;
     o_serverImages := o_serverImages o;
     o_sshKeys := o_sshKeys o;
     o_firewalls := o_firewalls o;
     o_networks := o_networks o;
     o_placementGroups := o_placementGroups o |}.

(** What the component does to its surroundings. *)
Inductive Effect :=
(** [emit('validationChanged', valid)] *)
| ValidationChanged (valid : bool)
(** [updateValue] passed its test and wrote the record *)
| OutboundSync (written : Value.t)
(** [dispatch('growl/error', ...)] *)
| GrowlError (message : string).

(** The refs, the reactive objects and the props of one component
    instance, with the effects so far. *)
Record state := {
  props_value : Value.t;
  hetznerOptions : HetznerOptions;
  serverConfiguration : ServerConfiguration.t;
  loadingData : bool;
  initialLoad : bool;
  (** [hcloud.value]: the client, or [null] until [onMounted] made one *)
  hcloud : option string;
  isValid : bool;
  syncingToProps : bool;
  syncingFromProps : bool;
  effects : list Effect;
}.

Definition with_props_value x w :=
  {| props_value := x; hetznerOptions := hetznerOptions w;
     serverConfiguration := serverConfiguration w;
     loadingData := loadingData w; initialLoad := initialLoad w;
     hcloud := hcloud w; isValid := isValid w;
     syncingToProps := syncingToProps w;
     syncingFromProps := syncingFromProps w; effects := effects w |}.

Definition with_hetznerOptions x w :=
  {| props_value := props_value w; hetznerOptions := x;
     serverConfiguration := serverConfiguration w;
     loadingData := loadingData w; initialLoad := initialLoad w;
     hcloud := hcloud w; isValid := isValid w;
     syncingToProps := syncingToProps w;
     syncingFromProps := syncingFromProps w; effects := effects w |}.

Definition with_serverConfiguration x w :=
  {| props_value := props_value w; hetznerOptions := hetznerOptions w;
     serverConfiguration := x;
     loadingData := loadingData w; initialLoad := initialLoad w;
     hcloud := hcloud w; isValid := isValid w;
     syncingToProps := syncingToProps w;
     syncingFromProps := syncingFromProps w; effects := effects w |}.

Definition with_loadingData x w :=
  {| props_value := props_value w; hetznerOptions := hetznerOptions w;
     serverConfiguration := serverConfiguration w;
     loadingData := x; initialLoad := initialLoad w;
     hcloud := hcloud w; isValid := isValid w;
     syncingToProps := syncingToProps w;
     syncingFromProps := syncingFromProps w; effects := effects w |}.

Definition with_isValid x w :=
  {| props_value := props_value w; hetznerOptions := hetznerOptions w;
     serverConfiguration := serverConfiguration w;
     loadingData := loadingData w; initialLoad := initialLoad w;
     hcloud := hcloud w; isValid := x;
     syncingToProps := syncingToProps w;
     syncingFromProps := syncingFromProps w; effects := effects w |}.

Definition with_syncingToProps x w :=
  {| props_value := props_value w; hetznerOptions := hetznerOptions w;
     serverConfiguration := serverConfiguration w;
     loadingData := loadingData w; initialLoad := initialLoad w;
     hcloud := hcloud w; isValid := isValid w;
     syncingToProps := x;
     syncingFromProps := syncingFromProps w; effects := effects w |}.

Definition with_syncingFromProps x w :=
  {| props_value := props_value w; hetznerOptions := hetznerOptions w;
     serverConfiguration := serverConfiguration w;
     loadingData := loadingData w; initialLoad := initialLoad w;
     hcloud := hcloud w; isValid := isValid w;
     syncingToProps := syncingToProps w;
     syncingFromProps := x; effects := effects w |}.

Definition emit (e : Effect) w :=
  {| props_value := props_value w; hetznerOptions := hetznerOptions w;
     serverConfiguration := serverConfiguration w;
     loadingData := loadingData w; initialLoad := initialLoad w;
     hcloud := hcloud w; isValid := isValid w;
     syncingToProps := syncingToProps w;
     syncingFromProps := syncingFromProps w;
     effects := (effects w ++ [e])%list |}.

(** *** Outbound sync: [updateValue] *)

(** [x?.toString()] and [x !== undefined && x !== null ? x.toString() : undefined] *)
Definition string_or_undefined (x : option string) : JS.value :=
  match x with
  | Some s => JS.Str s
  | None => JS.Undefined
  end.

Definition number_or_undefined (x : option JS.number) : JS.value :=
  match x with
  | Some n => JS.Str (JS.number_toString n)
  | None => JS.Undefined
  end.

(** [ids?.map((id) => id?.toString()) || []] *)
Definition id_strings (ids : option (list JS.number)) : option (list JS.id_value) :=
  match ids with
  | Some ids => Some (map (fun id => JS.IdStr (JS.number_toString id)) ids)
  | None => Some []
  end.

(** [Object.entries(labels).map(([key, value]) => `${key}=${value}`)], or
    [[]] without labels *)
Definition label_strings (labels : option (gmap string (option string)))
  : option (list string) :=
  match labels with
  | Some labels =>
      Some (map (fun '(key, value) => key ++ "=" ++ JS.interpolate value)
                (JS.Object_entries labels))
  | None => Some []
  end.

(** The assignments to [props.value], in the order of the source. *)
Definition toProps (c : ServerConfiguration.t) : Value.t :=
  let network_disabled := JS.truthy_flag (C.disablePublicNetwork c) in
  {| V.serverType := string_or_undefined (C.serverType c);
     V.serverLocation := string_or_undefined (C.serverLocation c);
     V.imageId := number_or_undefined (C.serverImage c);
     V.placementGroup := number_or_undefined (C.placementGroupId c);
     V.networks := id_strings (C.networkIds c);
     V.firewalls := id_strings (C.firewallIds c);
     V.existingKeyId := number_or_undefined (C.sshKeyId c);
     V.usePrivateNetwork := C.usePrivateNetwork c;
     V.disablePublic := Some network_disabled;
     V.disablePublicIpv4 :=
       if network_disabled then Some false else C.disablePublicIpv4 c;
     V.disablePublicIpv6 :=
       if network_disabled then Some false else C.disablePublicIpv6 c;
     V.additionalUserData := C.additionalUserData c;
     V.userDataFromFile := Some true;
     V.serverLabel := label_strings (C.serverLabels c) |}.

(** [updateValue] up to [await nextTick()]. *)
Definition updateValue (w : state) : state :=
  if isValid w then
    let w := with_syncingToProps true w in
    let written := toProps (serverConfiguration w) in
    emit (OutboundSync written) (with_props_value written w)
  else w.

(** [updateValue] after [await nextTick()]. *)
Definition updateValue_resumed (w : state) : state :=
  with_syncingToProps false w.

(** *** Inbound sync: the watcher of [props.value] *)

(** [x !== undefined && x !== null ? x.toString() : undefined] *)
Definition decode_string (x : JS.value) : option string :=
  match x with
  | JS.Undefined | JS.Null => None
  | JS.Num n => Some (JS.number_toString n)
  | JS.Str s => Some s
  end.

(** [x !== undefined && x !== null
      ? typeof x === 'string' ? Number(x) : x : undefined] *)
Definition decode_number (x : JS.value) : option JS.number :=
  match x with
  | JS.Undefined | JS.Null => None
  | JS.Str s => Some (JS.Number_of_string s)
  | JS.Num n => Some n
  end.

(** [x !== undefined && x !== null ? Number(x) : undefined] *)
Definition decode_key (x : JS.value) : option JS.number :=
  match x with
  | JS.Undefined | JS.Null => None
  | x => Some (JS.Number x)
  end.

(** [Array.isArray(xs)
      ? xs.map((id) => typeof id === 'string' ? Number(id) : id) : []] *)
Definition decode_ids (xs : option (list JS.id_value)) : list JS.number :=
  match xs with
  | Some xs =>
      map (fun id => match id with
                     | JS.IdStr s => JS.Number_of_string s
                     | JS.IdNum n => n
                     end) xs
  | None => []
  end.

(** [Object.fromEntries((labels || []).map((label) => label.split('=')))] *)
Definition decode_labels (labels : option (list string))
  : gmap string (option string) :=
  JS.Object_fromEntries (map (JS.split "="%char) (default [] labels)).

(** [x || ''] *)
Definition or_empty (x : option string) : string :=
  match x with
  | Some s => if JS.truthy_string s then s else ""
  | None => ""
  end.

(** The assignments to [serverConfiguration], in the order of the
    source. *)
Definition fromProps (newValue : Value.t) : ServerConfiguration.t :=
  {| C.serverType := decode_string (V.serverType newValue);
     C.serverLocation := decode_string (V.serverLocation newValue);
     C.serverImage := decode_number (V.imageId newValue);
     C.placementGroupId := decode_number (V.placementGroup newValue);
     C.networkIds := Some (decode_ids (V.networks newValue));
     C.firewallIds := Some (decode_ids (V.firewalls newValue));
     C.sshKeyId := decode_key (V.existingKeyId newValue);
     C.usePrivateNetwork := V.usePrivateNetwork newValue;
     C.disablePublicNetwork := V.disablePublic newValue;
     C.disablePublicIpv4 := V.disablePublicIpv4 newValue;
     C.disablePublicIpv6 := V.disablePublicIpv6 newValue;
     C.additionalUserData := Some (or_empty (V.additionalUserData newValue));
     C.serverLabels := Some (decode_labels (V.serverLabel newValue)) |}.

(** The watcher up to [await nextTick()]. *)
Definition propsWatcher (w : state) : state :=
  if syncingToProps w then w
  else
    let w := with_syncingFromProps true w in
    with_serverConfiguration (fromProps (props_value w)) w.

(** The watcher after [await nextTick()]. *)
Definition propsWatcher_resumed (w : state) : state :=
  with_syncingFromProps false w.

(** *** Validation: the deep watcher of [serverConfiguration] *)

(** [!ids?.length] *)
Definition no_ids (ids : option (list JS.number)) : bool :=
  match ids with
  | Some (_ :: _) => false
  | _ => true
  end.

(** The three tests, each of which can only lower [valid]. *)
Definition validate (newValue : ServerConfiguration.t) : bool :=
  let valid := true in
  let valid :=
    if (negb (JS.truthy_opt JS.truthy_number (C.serverImage newValue))
        || negb (JS.truthy_opt JS.truthy_string (C.serverType newValue))
        || negb (JS.truthy_opt JS.truthy_string (C.serverLocation newValue)))%bool
    then false else valid in
  let valid :=
    if ((JS.truthy_flag (C.disablePublicNetwork newValue)
         || JS.truthy_flag (C.disablePublicIpv4 newValue)
         || JS.truthy_flag (C.disablePublicIpv6 newValue))
        && negb (JS.truthy_flag (C.usePrivateNetwork newValue)))%bool
    then false else valid in
  let valid :=
    if (JS.truthy_flag (C.usePrivateNetwork newValue)
        && no_ids (C.networkIds newValue))%bool
    then false else valid in
  valid.

(** The watcher up to the [await] inside [updateValue]. *)
Definition configurationWatcher (w : state) : state :=
  let valid := validate (serverConfiguration w) in
  let w := with_isValid valid w in
  let w := emit (ValidationChanged valid) w in
  if (valid && negb (syncingFromProps w))%bool then updateValue w else w.

(** *** Dependent re-aggregation: the watcher of [serverLocation] *)

(** [type.value === serverConfiguration.serverType] *)
Definition is_selected (selected : option string) (type : HetznerOption) : bool :=
  match selected, value type with
  | Some s, VStr v => String.eqb v s
  | _, _ => false
  end.

(** The watcher up to [await hcloud.value.getServerTypes(newLocation)]. *)
Definition locationWatcher (w : state) : state :=
  match hcloud w with
  | Some _ => with_loadingData true w
  | None => w
  end.

(** The watcher once the request has settled: the rest of the [try], the
    [catch] and the [finally]. *)
Definition locationWatcher_resumed
    (settled : Completion (list HetznerOption)) (w : state) : state :=
  let w :=
    match settled with
    | Return serverTypes =>
        let w := with_hetznerOptions
                   (with_o_serverTypes serverTypes (hetznerOptions w)) w in
        if negb (existsb (is_selected (C.serverType (serverConfiguration w)))
                         (o_serverTypes (hetznerOptions w)))
        then with_serverConfiguration
               (C.with_serverType None (serverConfiguration w)) w
        else w
    | Throw _ =>
        emit (GrowlError "Failed to load server types for selected location") w
    end in
  with_loadingData false w.

(** A change of [serverLocation] handled with nothing else in between;
    [None] while the request is still paging. *)
Definition locationChanged `{Host} (fuel : nat) (api : Api) (w : state)
  : option state :=
  match hcloud w with
  | Some _ =>
      let newLocation := C.serverLocation (serverConfiguration w) in
      match HetznerCloud.getServerTypes fuel api newLocation with
      | Some settled => Some (locationWatcher_resumed settled (locationWatcher w))
      | None => None
      end
  | None => Some w
  end.

(** *** The component as a transition system *)

Inductive Event :=
(** the host changes [props.value] *)
| HostWrites (v : Value.t)
(** the user edits a field bound with [v-model] *)
| UserEdits (c : ServerConfiguration.t)
| PropsWatcherRuns
| PropsWatcherResumes
| ConfigurationWatcherRuns
| UpdateValueResumes
| LocationWatcherRuns
| LocationWatcherResumes (settled : Completion (list HetznerOption)).

Definition step (e : Event) (w : state) : state :=
  match e with
  | HostWrites v => with_props_value v w
  | UserEdits c => with_serverConfiguration c w
  | PropsWatcherRuns => propsWatcher w
  | PropsWatcherResumes => propsWatcher_resumed w
  | ConfigurationWatcherRuns => configurationWatcher w
  | UpdateValueResumes => updateValue_resumed w
  | LocationWatcherRuns => locationWatcher w
  | LocationWatcherResumes settled => locationWatcher_resumed settled w
  end.

Definition run (es : list Event) (w : state) : state :=
  foldl (fun w e => step e w) w es.

Definition is_outbound (e : Effect) : bool :=
  match e with
  | OutboundSync _ => true
  | _ => false
  end.

(** The outbound syncs performed so far. *)
Definition outbound_syncs (w : state) : list Effect :=
  List.filter is_outbound (effects w).

(** The state of a freshly set-up component. *)
Definition initial (v : Value.t) : state :=
  {| props_value := v;
     hetznerOptions :=
       {| o_locations := []; o_serverTypes := []; o_serverImages := [];
          o_sshKeys := []; o_firewalls := []; o_networks := [];
          o_placementGroups := [] |};
     serverConfiguration :=
       {| C.disablePublicNetwork := Some false;
          C.disablePublicIpv4 := Some false;
          C.disablePublicIpv6 := Some false;
          C.usePrivateNetwork := Some false;
          C.sshKeyId := None;
          C.firewallIds := Some [];
          C.networkIds := Some [];
          C.placementGroupId := None;
          C.serverImage := None;
          C.serverType := None;
          C.serverLocation := None;
          C.additionalUserData := None;
          C.serverLabels := Some ∅ |};
     loadingData := true;
     initialLoad := true;
     hcloud := None;
     isValid := false;
     syncingToProps := false;
     syncingFromProps := false;
     effects := [] |}.

(** *** Initial load: [onMounted] *)

Definition with_initialLoad x w :=
  {| props_value := props_value w; hetznerOptions := hetznerOptions w;
     serverConfiguration := serverConfiguration w;
     loadingData := loadingData w; initialLoad := x;
     hcloud := hcloud w; isValid := isValid w;
     syncingToProps := syncingToProps w;
     syncingFromProps := syncingFromProps w; effects := effects w |}.

Definition with_hcloud x w :=
  {| props_value := props_value w; hetznerOptions := hetznerOptions w;
     serverConfiguration := serverConfiguration w;
     loadingData := loadingData w; initialLoad := initialLoad w;
     hcloud := x; isValid := isValid w;
     syncingToProps := syncingToProps w;
     syncingFromProps := syncingFromProps w; effects := effects w |}.

(** What [onMounted] dispatches to the store. *)
Inductive Notice :=
(** [dispatch('growl/warning', ...)] *)
| GrowlWarning (message : string)
(** [dispatch('growl/error', ...)] with the message of the caught error *)
| GrowlFailure (reason : Error).

(** [Promise.all] of two promises: rejected as soon as one of them is,
    fulfilled when both are, pending otherwise. When both reject, the
    reason kept here is that of the first in the array. *)
Definition both {A B} (a : option (Completion A)) (b : option (Completion B))
  : option (Completion (A * B)) :=
  match a, b with
  | Some (Throw e), _ => Some (Throw e)
  | _, Some (Throw e) => Some (Throw e)
  | Some (Return x), Some (Return y) => Some (Return (x, y))
  | _, _ => None
  end.

(** The seven lists in the order of the array given to [Promise.all]. *)
Definition Catalogue : Type :=
  list HetznerOption * (list HetznerOption * (list HetznerOption
  * (list HetznerOption * (list HetznerOption * (list HetznerOption
  * list HetznerOption))))).

Definition loadAll `{Host} (fuel : nat) (api : Api)
  : option (Completion Catalogue) :=
  both (HetznerCloud.getLocations fuel api)
    (both (HetznerCloud.getServerTypes fuel api None)
       (both (HetznerCloud.getImages fuel api)
          (both (HetznerCloud.getPlacementGroups fuel api)
             (both (HetznerCloud.getNetworks fuel api)
                (both (HetznerCloud.getSshKeys fuel api)
                      (HetznerCloud.getFirewalls fuel api)))))).

(** [onMounted] up to [await Promise.all(...)], or to its early
    [return]. *)
Definition onMounted (credentialId : string) (w : state) : state :=
  if negb (JS.truthy_string credentialId)
  then with_initialLoad false (with_loadingData false w)
  else with_hcloud (Some credentialId) w.

(** [onMounted] once [Promise.all] has settled: the rest of the [try] or
    the [catch], and the two assignments after them. *)
Definition onMounted_resumed (settled : Completion Catalogue) (w : state)
  : state * list Notice :=
  let '(w, notices) :=
    match settled with
    | Return (locations, (serverTypes, (serverImages, (placementGroups,
              (networks, (sshKeys, firewalls)))))) =>
        (with_hetznerOptions
           {| o_locations := locations;
              o_serverTypes := serverTypes;
              o_serverImages := serverImages;
              o_sshKeys := sshKeys;
              o_firewalls := firewalls;
              o_networks := networks;
              o_placementGroups := placementGroups |} w,
         if Nat.eqb (length locations) 0
         then [GrowlWarning
                 "Unable to load Hetzner locations. Please check your API credentials."]
         else [])
    | Throw error =>
        (with_hetznerOptions
           {| o_locations := [];
              o_serverTypes := [];
              o_serverImages := [];
              o_sshKeys := o_sshKeys (hetznerOptions w);
              o_firewalls := o_firewalls (hetznerOptions w);
              o_networks := o_networks (hetznerOptions w);
              o_placementGroups := o_placementGroups (hetznerOptions w) |} w,
         [GrowlFailure error])
    end in
  (with_initialLoad false (with_loadingData false w), notices).

(** The whole of [onMounted] with nothing else in between; [None] while
    an operation is still paging. *)
Definition mounted `{Host} (fuel : nat) (api : Api) (credentialId : string)
    (w : state) : option (state * list Notice) :=
  if negb (JS.truthy_string credentialId)
  then Some (onMounted credentialId w, [])
  else
    match loadAll fuel api with
    | Some settled =>
        Some (onMounted_resumed settled (onMounted credentialId w))
    | None => None
    end.

End Reconciler.

(** ** Vocabulary of the statements *)

(** A flag is set when it is [true]. *)
Definition flag_set (f : option bool) : Prop := f = Some true.

(** A required selection is set when it holds a value that the validity
    test accepts: a string other than [""], a number other than [0] and
    [NaN]. *)
Definition string_set (x : option string) : Prop :=
  exists s, x = Some s /\ s <> "".

Definition number_set (x : option JS.number) : Prop :=
  exists z, x = Some (JS.Int z) /\ z <> 0.

(** [s] contains the character [c]. *)
Fixpoint has_char (c : ascii) (s : string) : bool :=
  match s with
  | EmptyString => false
  | String d r => (Ascii.eqb d c || has_char c r)%bool
  end.

(** [s] has no white space in it. *)
Fixpoint spaceless (s : string) : bool :=
  match s with
  | EmptyString => true
  | String c r => (negb (JS.is_space c) && spaceless r)%bool
  end.

(** A label that survives its encoding as ["key=value"]: neither the key
    nor the value contains [=], and the value is a string. *)
Definition plain_label (key : string) (v : option string) : Prop :=
  has_char "="%char key = false
  /\ exists s, v = Some s /\ has_char "="%char s = false.

(** Outbound sync, and, once it has resumed, inbound sync. *)
Definition round_trip (w : Reconciler.state) : Reconciler.state :=
  Reconciler.propsWatcher
    (Reconciler.updateValue_resumed (Reconciler.updateValue w)).

(** At least one network id is selected. *)
Definition some_network (ids : option (list JS.number)) : Prop :=
  exists id rest, ids = Some (id :: rest).

(** A transport serves [pages] when page [i] of the path answers with the
    [i]-th item array and reports their number as [last_page]. *)
Definition serves {A} (transport : nat -> Transport.Outcome A)
    (pages : list (list A)) : Prop :=
  forall i page, pages !! i = Some page ->
    exists status text,
      Transport.ok status = true
      /\ transport (S i)
         = Transport.Responded status text
             (Some {| Transport.items := Some page;
                      Transport.last_page := Some (length pages) |}).

Definition nonempty {A} (l : list A) : bool :=
  match l with
  | [] => false
  | _ :: _ => true
  end.

(** The pages up to and including the first empty one. *)
Fixpoint until_empty {A} (pages : list (list A)) : list (list A) :=
  match pages with
  | [] => []
  | page :: rest => if nonempty page then page :: until_empty rest else [page]
  end.

(** A request fails when [fetch] rejects, when the status is not 2xx, or
    when the body does not parse. *)
Definition failure {A} (o : Transport.Outcome A) : Prop :=
  match o with
  | Transport.Rejected => True
  | Transport.Responded status _ json =>
      Transport.ok status = false \/ json = None
  end.

(** The loop gets as far as requesting page [n], and that request
    fails. *)
Definition fails_at {A} (transport : nat -> Transport.Outcome A) (n : nat)
  : Prop :=
  (1 <= n)%nat
  /\ (forall i, (1 <= i < n)%nat ->
        exists response,
          HetznerCloud.request transport i = Return response
          /\ HetznerCloud.more_pages response (S i) = true)
  /\ failure (transport n).

Definition kind_fails_at (k : HetznerCloud.Kind) (api : Transport.Api) (n : nat)
  : Prop :=
  match k with
  | HetznerCloud.Locations => fails_at (Transport.locations api) n
  | HetznerCloud.ServerTypes _ => fails_at (Transport.server_types api) n
  | HetznerCloud.Images => fails_at (Transport.images api) n
  | HetznerCloud.PlacementGroups => fails_at (Transport.placement_groups api) n
  | HetznerCloud.Networks => fails_at (Transport.networks api) n
  | HetznerCloud.Firewalls => fails_at (Transport.firewalls api) n
  | HetznerCloud.SshKeys => fails_at (Transport.ssh_keys api) n
  end.

(** What the properties about order assume of the collation of the host:
    swapping the arguments flips the sign, and "not after" is transitive. *)
Class HostLaws (host : Host) : Prop := {
  localeCompare_antisym a b :
    localeCompare b a = CompOpp (localeCompare a b);
  localeCompare_trans a b c :
    localeCompare a b <> Gt -> localeCompare b c <> Gt ->
    localeCompare a c <> Gt;
}.

(** [a] is not after [b] when sorted by name. *)
Definition by_name `{Host} (a b : ServerTypeResponse.t) : Prop :=
  localeCompare (ServerTypeResponse.name a) (ServerTypeResponse.name b) <> Gt.

(** The name of a server type as an option value. *)
Definition type_key (type : ServerTypeResponse.t) : OptionValue :=
  VStr (ServerTypeResponse.name type).

(** A synthetic group header. *)
Definition is_header (o : HetznerOption) : Prop := kind o = Some "group".

(** A statement about the path of a kind and about the transform that the
    operation of that kind applies to what it fetched. *)
Definition for_kind `{Host}
    (P : forall A, (nat -> Transport.Outcome A)
                   -> (list A -> list HetznerOption) -> Prop)
    (k : HetznerCloud.Kind) (api : Transport.Api) : Prop :=
  match k with
  | HetznerCloud.Locations =>
      P _ (Transport.locations api) HetznerCloud.locationOptions
  | HetznerCloud.ServerTypes location =>
      P _ (Transport.server_types api) (HetznerCloud.serverTypeOptions location)
  | HetznerCloud.Images =>
      P _ (Transport.images api) HetznerCloud.imageOptions
  | HetznerCloud.PlacementGroups =>
      P _ (Transport.placement_groups api) HetznerCloud.namedOptions
  | HetznerCloud.Networks =>
      P _ (Transport.networks api) HetznerCloud.networkOptions
  | HetznerCloud.Firewalls =>
      P _ (Transport.firewalls api) HetznerCloud.namedOptions
  | HetznerCloud.SshKeys =>
      P _ (Transport.ssh_keys api) HetznerCloud.namedOptions
  end.

(** No response of the path reports a [last_page] above [bound]. *)
Definition last_page_within {A} (transport : nat -> Transport.Outcome A)
    (bound : nat) : Prop :=
  forall page response last,
    HetznerCloud.request transport page = Return response ->
    Transport.last_page response = Some last ->
    (last <= bound)%nat.

(** The first response of the path, if there is one, ends the loop of the
    paged client. *)
Definition first_is_last {A} (transport : nat -> Transport.Outcome A) : Prop :=
  forall response,
    HetznerCloud.request transport 1 = Return response ->
    HetznerCloud.more_pages response 2 = false.

(** [a] is not after [b] by network zone and then name. *)
Definition by_zone_then_name `{Host} (a b : LocationResponse.t) : Prop :=
  localeCompare (LocationResponse.network_zone a)
                (LocationResponse.network_zone b) = Lt
  \/ (LocationResponse.network_zone a = LocationResponse.network_zone b
      /\ localeCompare (LocationResponse.name a) (LocationResponse.name b)
         <> Gt).

(** [a] is not after [b] when images are sorted by name. *)
Definition by_image_name `{Host} (a b : ImageResponse.t) : Prop :=
  localeCompare (ImageResponse.name a) (ImageResponse.name b) <> Gt.

(** The type has a price for the location. *)
Definition priced (location : string) (type : ServerTypeResponse.t) : Prop :=
  exists price,
    In price (ServerTypeResponse.prices type)
    /\ Price.location price = location.

(** What an instance type must satisfy to be offered under a filter. *)
Definition offered (location : option string) (type : ServerTypeResponse.t)
  : Prop :=
  ServerTypeResponse.deprecated type = false
  /\ (forall loc, location = Some loc -> loc <> "" -> priced loc type).

(** A value of the host record with a number written as its decimal
    string. *)
Definition stringified (x : JS.value) : JS.value :=
  match x with
  | JS.Num n => JS.Str (JS.number_toString n)
  | other => other
  end.

Definition stringified_id (x : JS.id_value) : JS.id_value :=
  match x with
  | JS.IdNum n => JS.IdStr (JS.number_toString n)
  | other => other
  end.

(** The host record with every number among its ids written as a
    string. *)
Definition stringify (v : Value.t) : Value.t :=
  {| Value.serverType := stringified (Value.serverType v);
     Value.serverLocation := stringified (Value.serverLocation v);
     Value.imageId := stringified (Value.imageId v);
     Value.placementGroup := stringified (Value.placementGroup v);
     Value.networks := map stringified_id <$> Value.networks v;
     Value.firewalls := map stringified_id <$> Value.firewalls v;
     Value.existingKeyId := stringified (Value.existingKeyId v);
     Value.usePrivateNetwork := Value.usePrivateNetwork v;
     Value.disablePublic := Value.disablePublic v;
     Value.disablePublicIpv4 := Value.disablePublicIpv4 v;
     Value.disablePublicIpv6 := Value.disablePublicIpv6 v;
     Value.additionalUserData := Value.additionalUserData v;
     Value.userDataFromFile := Value.userDataFromFile v;
     Value.serverLabel := Value.serverLabel v |}.

(** One round trip of a configuration through the host record. *)
Definition normalize (c : ServerConfiguration.t) : ServerConfiguration.t :=
  Reconciler.fromProps (Reconciler.toProps c).

(** An outbound sync that wrote the encoding of a valid configuration. *)
Definition wrote_valid (e : Reconciler.Effect) : Prop :=
  forall written, e = Reconciler.OutboundSync written ->
    exists c, Reconciler.validate c = true /\ written = Reconciler.toProps c.

(** ** Sample data *)

Module Sample.
Import Reconciler.

(** A host that collates by code unit and is handed prices that already
    carry two decimals. *)
Definition host : Host :=
  {| localeCompare := String.compare; toFixed2 := fun gross => gross |}.

Definition fsn1 : LocationResponse.t :=
  {| LocationResponse.name := "fsn1";
     LocationResponse.city := "Falkenstein";
     LocationResponse.country := "DE";
     LocationResponse.network_zone := "eu-central" |}.

Definition hel1 : LocationResponse.t :=
  {| LocationResponse.name := "hel1";
     LocationResponse.city := "Helsinki";
     LocationResponse.country := "FI";
     LocationResponse.network_zone := "eu-central" |}.

Definition ccx13 : ServerTypeResponse.t :=
  {| ServerTypeResponse.name := "ccx13";
     ServerTypeResponse.deprecated := false;
     ServerTypeResponse.architecture := "x86";
     ServerTypeResponse.cores := JS.Int 2;
     ServerTypeResponse.memory := JS.Int 8;
     ServerTypeResponse.disk := JS.Int 80;
     ServerTypeResponse.cpu_type := dedicated;
     ServerTypeResponse.prices :=
       [{| Price.location := "fsn1"; Price.price_monthly_gross := "14.86" |};
        {| Price.location := "hel1"; Price.price_monthly_gross := "14.86" |}] |}.

Definition cx22 : ServerTypeResponse.t :=
  {| ServerTypeResponse.name := "cx22";
     ServerTypeResponse.deprecated := false;
     ServerTypeResponse.architecture := "x86";
     ServerTypeResponse.cores := JS.Int 2;
     ServerTypeResponse.memory := JS.Int 4;
     ServerTypeResponse.disk := JS.Int 40;
     ServerTypeResponse.cpu_type := shared;
     ServerTypeResponse.prices :=
       [{| Price.location := "fsn1"; Price.price_monthly_gross := "4.51" |}] |}.

Definition cax11 : ServerTypeResponse.t :=
  {| ServerTypeResponse.name := "cax11";
     ServerTypeResponse.deprecated := false;
     ServerTypeResponse.architecture := "arm";
     ServerTypeResponse.cores := JS.Int 2;
     ServerTypeResponse.memory := JS.Int 4;
     ServerTypeResponse.disk := JS.Int 40;
     ServerTypeResponse.cpu_type := shared;
     ServerTypeResponse.prices :=
       [{| Price.location := "hel1"; Price.price_monthly_gross := "4.51" |}] |}.

(** A path that serves the given pages and rejects any other page. *)
Definition paged {A} (pages : list (list A)) (page : nat) : Transport.Outcome A :=
  match page with
  | O => Transport.Rejected
  | S i =>
      match pages !! i with
      | Some items =>
          Transport.Responded 200 "OK"
            (Some {| Transport.items := Some items;
                     Transport.last_page := Some (length pages) |})
      | None => Transport.Rejected
      end
  end.

Definition unauthorized {A} (page : nat) : Transport.Outcome A :=
  Transport.Responded 401 "unauthorized" None.

(** A provider with the given locations and server types, page by page,
    that rejects the token on every other path. *)
Definition provider (locations : list (list LocationResponse.t))
    (server_types : list (list ServerTypeResponse.t)) : Transport.Api :=
  {| Transport.locations := paged locations;
     Transport.server_types := paged server_types;
     Transport.images := unauthorized;
     Transport.placement_groups := unauthorized;
     Transport.networks := unauthorized;
     Transport.firewalls := unauthorized;
     Transport.ssh_keys := unauthorized |}.

(** Two locations on two pages, three server types on two pages. *)
Definition catalogue : Transport.Api :=
  provider [[fsn1]; [hel1]] [[cx22; ccx13]; [cax11]].

(** A provider whose every path serves one page and reports one page. *)
Definition small : Transport.Api :=
  {| Transport.locations := paged [[hel1; fsn1]];
     Transport.server_types := paged [[cx22; ccx13; cax11]];
     Transport.images := paged [[]];
     Transport.placement_groups := paged [[]];
     Transport.networks := paged [[]];
     Transport.firewalls := paged [[]];
     Transport.ssh_keys := paged [[]] |}.

(** The same location served on both pages. *)
Definition repeating : Transport.Api := provider [[fsn1]; [fsn1]] [].

(** A path whose first page holds [fsn1] and announces a second page, and
    whose second page is a body that parses but has neither an item array
    nor pagination data. *)
Definition shapeless_locations (page : nat)
  : Transport.Outcome LocationResponse.t :=
  match page with
  | 1%nat =>
      Transport.Responded 200 "OK"
        (Some {| Transport.items := Some [fsn1];
                 Transport.last_page := Some 2%nat |})
  | 2%nat =>
      Transport.Responded 200 "OK"
        (Some {| Transport.items := None; Transport.last_page := None |})
  | _ => Transport.Rejected
  end.

Definition shapeless : Transport.Api :=
  {| Transport.locations := shapeless_locations;
     Transport.server_types := unauthorized;
     Transport.images := unauthorized;
     Transport.placement_groups := unauthorized;
     Transport.networks := unauthorized;
     Transport.firewalls := unauthorized;
     Transport.ssh_keys := unauthorized |}.

Definition ubuntu : ImageResponse.t :=
  {| ImageResponse.id := JS.Int 161547269;
     ImageResponse.name := "ubuntu-24.04";
     ImageResponse.architecture := "x86";
     ImageResponse.description := "Ubuntu 24.04" |}.

Definition debian : ImageResponse.t :=
  {| ImageResponse.id := JS.Int 114690387;
     ImageResponse.name := "debian-12";
     ImageResponse.architecture := "x86";
     ImageResponse.description := "Debian 12" |}.

Definition backend : NetworkResponse.t :=
  {| NetworkResponse.id := JS.Int 20;
     NetworkResponse.name := "backend";
     NetworkResponse.ip_range := "10.1.0.0/16" |}.

Definition frontend : NetworkResponse.t :=
  {| NetworkResponse.id := JS.Int 10;
     NetworkResponse.name := "frontend";
     NetworkResponse.ip_range := "10.0.0.0/16" |}.

(** A provider that serves, on one page each, two images that are not in
    the order of their names and two networks that are not in the order of
    their ids. *)
Definition stocked : Transport.Api :=
  {| Transport.locations := paged [[hel1; fsn1]];
     Transport.server_types := paged [[cx22; ccx13; cax11]];
     Transport.images := paged [[ubuntu; debian]];
     Transport.placement_groups := paged [[]];
     Transport.networks := paged [[backend; frontend]];
     Transport.firewalls := paged [[]];
     Transport.ssh_keys := paged [[]] |}.

Definition fsn1_option : HetznerOption :=
  HetznerCloud.locationOption fsn1.

Definition hel1_option : HetznerOption :=
  HetznerCloud.locationOption hel1.

(** The instance types of [catalogue] offered in [hel1]. *)
Definition hel1_types : list HetznerOption :=
  [HetznerCloud.dedicatedHeader;
   HetznerCloud.formatServerType (host := host) (Some "hel1") ccx13;
   HetznerCloud.sharedHeader;
   HetznerCloud.formatServerType (host := host) (Some "hel1") cax11].

(** The instance types of [catalogue] offered in [fsn1]. *)
Definition fsn1_types : list HetznerOption :=
  [HetznerCloud.dedicatedHeader;
   HetznerCloud.formatServerType (host := host) (Some "fsn1") ccx13;
   HetznerCloud.sharedHeader;
   HetznerCloud.formatServerType (host := host) (Some "fsn1") cx22].

Definition configuration : ServerConfiguration.t :=
  {| C.disablePublicNetwork := Some true;
     C.disablePublicIpv4 := Some true;
     C.disablePublicIpv6 := Some false;
     C.usePrivateNetwork := Some true;
     C.sshKeyId := Some (JS.Int 7);
     C.firewallIds := Some [];
     C.networkIds := Some [JS.Int 11];
     C.placementGroupId := None;
     C.serverImage := Some (JS.Int 67794396);
     C.serverType := Some "cx22";
     C.serverLocation := Some "fsn1";
     C.additionalUserData := Some "#cloud-config";
     C.serverLabels := Some ∅ |}.

(** The same selection moved to a location that does not offer the
    selected type, without user data, and with a label whose value
    contains [=]. *)
Definition moved : ServerConfiguration.t :=
  {| C.disablePublicNetwork := Some false;
     C.disablePublicIpv4 := Some false;
     C.disablePublicIpv6 := Some false;
     C.usePrivateNetwork := Some false;
     C.sshKeyId := None;
     C.firewallIds := Some [JS.Int 3];
     C.networkIds := Some [];
     C.placementGroupId := Some (JS.Int 5);
     C.serverImage := Some (JS.Int 67794396);
     C.serverType := Some "cx22";
     C.serverLocation := Some "hel1";
     C.additionalUserData := None;
     C.serverLabels := Some {[ "role" := Some "a=b" ]} |}.

(** [moved] with user data and a label that has no [=] in it. *)
Definition plain : ServerConfiguration.t :=
  {| C.disablePublicNetwork := Some false;
     C.disablePublicIpv4 := Some true;
     C.disablePublicIpv6 := None;
     C.usePrivateNetwork := Some true;
     C.sshKeyId := Some (JS.Int (-1));
     C.firewallIds := Some [JS.Int 3; JS.NaN];
     C.networkIds := Some [JS.Int 11];
     C.placementGroupId := Some (JS.Int 5);
     C.serverImage := Some (JS.Int 67794396);
     C.serverType := Some "cx22";
     C.serverLocation := Some "hel1";
     C.additionalUserData := Some "";
     C.serverLabels := Some {[ "role" := Some "worker" ]} |}.

(** A host record that stores its ids as numbers. *)
Definition numeric : Value.t :=
  {| Value.serverType := JS.Str "cx22";
     Value.serverLocation := JS.Str "fsn1";
     Value.imageId := JS.Num (JS.Int 67794396);
     Value.placementGroup := JS.Null;
     Value.networks := Some [JS.IdNum (JS.Int 11); JS.IdStr "12"];
     Value.firewalls := None;
     Value.existingKeyId := JS.Num (JS.Int 7);
     Value.usePrivateNetwork := Some true;
     Value.disablePublic := None;
     Value.disablePublicIpv4 := Some false;
     Value.disablePublicIpv6 := Some false;
     Value.additionalUserData := None;
     Value.userDataFromFile := None;
     Value.serverLabel := Some ["role=worker"; "tier"] |}.

(** A component holding [c], found valid, before [onMounted] has made a
    client. *)
Definition holding (c : ServerConfiguration.t) : state :=
  with_isValid true (with_serverConfiguration c (initial (toProps c))).

(** The same once a client exists. *)
Definition connected (c : ServerConfiguration.t) : state :=
  {| props_value := toProps c;
     hetznerOptions := hetznerOptions (initial (toProps c));
     serverConfiguration := c;
     loadingData := false;
     initialLoad := false;
     hcloud := Some "credential";
     isValid := true;
     syncingToProps := false;
     syncingFromProps := false;
     effects := [] |}.

End Sample.

(** * Properties *)

(** ** Validation *)

Section Validation.
Import Reconciler.

Lemma truthy_flag_set f : JS.truthy_flag f = true <-> flag_set f.
Proof. unfold flag_set. destruct f as [[]|]; simpl; split; congruence. Qed.

Lemma truthy_string_set x :
  JS.truthy_opt JS.truthy_string x = true <-> string_set x.
Proof.
  unfold string_set. destruct x as [[|c s]|]; simpl; split;
    try congruence; try (intros (s' & E & N); congruence).
  intros _. eexists. split; [reflexivity | congruence].
Qed.

Lemma truthy_number_set x :
  JS.truthy_opt JS.truthy_number x = true <-> number_set x.
Proof.
  unfold number_set. destruct x as [[z|]|]; simpl; split;
    try congruence; try (intros (z' & E & N); congruence).
  - intros Hz. exists z. split; [reflexivity|].
    intros ->. discriminate.
  - intros (z' & E & N). injection E as ->.
    destruct (Z.eqb_spec z' 0); [contradiction | reflexivity].
Qed.

Lemma no_ids_false ids : no_ids ids = false <-> some_network ids.
Proof.
  unfold some_network. destruct ids as [[|id rest]|]; simpl; split;
    try congruence; try (intros (i & r & E); congruence).
  intros _. eauto.
Qed.

Lemma updateValue_isValid w : isValid (updateValue w) = isValid w.
Proof. unfold updateValue. destruct (isValid w) eqn:E; simpl; auto. Qed.

Lemma updateValue_effects w :
  exists more, effects (updateValue w) = (effects w ++ more)%list
               /\ Forall (fun e => is_outbound e = true) more.
Proof.
  unfold updateValue. destruct (isValid w).
  - eexists. split; [reflexivity|]. repeat constructor.
  - exists []. split; [symmetry; apply app_nil_r | constructor].
Qed.

(** C3. The validity signal is [true] exactly when (a) image, instance
    type and location are set, (b) any of the three disable flags being
    set implies that the private network is used, and (c) using the
    private network implies that a network id is selected; the watcher
    stores that value in [isValid] and emits it. *)
Theorem validity_signal (w : state) :
  let c := serverConfiguration w in
  (validate c = true <->
     (string_set (C.serverType c) /\ number_set (C.serverImage c)
      /\ string_set (C.serverLocation c))
     /\ (flag_set (C.disablePublicNetwork c) \/ flag_set (C.disablePublicIpv4 c)
         \/ flag_set (C.disablePublicIpv6 c) -> flag_set (C.usePrivateNetwork c))
     /\ (flag_set (C.usePrivateNetwork c) -> some_network (C.networkIds c)))
  /\ isValid (configurationWatcher w) = validate c
  /\ In (ValidationChanged (validate c)) (effects (configurationWatcher w)).
Proof.
  intros c. split; [|split].
  - rewrite <- !truthy_flag_set, <- !truthy_string_set, <- truthy_number_set,
      <- no_ids_false.
    unfold validate.
    destruct (JS.truthy_opt JS.truthy_number (C.serverImage c)),
      (JS.truthy_opt JS.truthy_string (C.serverType c)),
      (JS.truthy_opt JS.truthy_string (C.serverLocation c)),
      (JS.truthy_flag (C.disablePublicNetwork c)),
      (JS.truthy_flag (C.disablePublicIpv4 c)),
      (JS.truthy_flag (C.disablePublicIpv6 c)),
      (JS.truthy_flag (C.usePrivateNetwork c)),
      (no_ids (C.networkIds c)); simpl; intuition congruence.
  - unfold configurationWatcher. fold c.
    destruct (validate c && _)%bool; [rewrite updateValue_isValid|]; reflexivity.
  - unfold configurationWatcher. fold c.
    destruct (validate c && _)%bool.
    + destruct (updateValue_effects
                  (emit (ValidationChanged (validate c))
                     (with_isValid (validate c) w))) as (more & -> & _).
      simpl. apply in_or_app. left. apply in_or_app. right. left. reflexivity.
    + simpl. apply in_or_app. right. left. reflexivity.
Qed.

(** The boundary cases of the validity test. *)
Example validity_boundaries :
  validate Sample.configuration = true
  /\ validate (C.with_serverType None Sample.configuration) = false
  /\ validate (C.with_serverType (Some "") Sample.configuration) = false.
Proof. repeat split. Qed.

End Validation.

(** ** Outbound sync and the two guards *)

Section Guards.
Import Reconciler.

(** C2. When the state is valid, [updateValue] writes
    [disablePublic = true] and both protocol flags [false] if
    [disablePublicNetwork] is [true], whatever the internal protocol
    flags are; if it is [false] it writes [disablePublic = false] and
    copies the two protocol flags. *)
Theorem disable_public_precedence (w : state) :
  isValid w = true ->
  let c := serverConfiguration w in
  let v := props_value (updateValue w) in
  (C.disablePublicNetwork c = Some true ->
     V.disablePublic v = Some true
     /\ V.disablePublicIpv4 v = Some false
     /\ V.disablePublicIpv6 v = Some false)
  /\ (C.disablePublicNetwork c = Some false ->
        V.disablePublic v = Some false
        /\ V.disablePublicIpv4 v = C.disablePublicIpv4 c
        /\ V.disablePublicIpv6 v = C.disablePublicIpv6 c).
Proof.
  intros Hvalid c v. subst c v. unfold updateValue. rewrite Hvalid. simpl.
  split; intros ->; simpl; auto.
Qed.

Lemma disable_public_precedence_witness :
  isValid (Sample.holding Sample.configuration) = true
  /\ C.disablePublicIpv4 (serverConfiguration (Sample.holding Sample.configuration)) = Some true
  /\ V.disablePublic (props_value (updateValue (Sample.holding Sample.configuration))) = Some true
  /\ V.disablePublicIpv4 (props_value (updateValue (Sample.holding Sample.configuration))) = Some false
  /\ V.disablePublicIpv6 (props_value (updateValue (Sample.holding Sample.configuration))) = Some false.
Proof.
  split; [reflexivity|]. split; [reflexivity|].
  apply (disable_public_precedence (Sample.holding Sample.configuration)); reflexivity.
Defined.

Lemma outbound_syncs_emit e w :
  is_outbound e = false -> outbound_syncs (emit e w) = outbound_syncs w.
Proof.
  intros He. unfold outbound_syncs. simpl.
  rewrite List.filter_app. simpl. rewrite He. apply app_nil_r.
Qed.

(** While [syncingFromProps] is up, only the resumption of the props
    watcher takes it down, and no step performs an outbound sync. *)
Lemma step_under_inbound_guard e w :
  syncingFromProps w = true ->
  e <> PropsWatcherResumes ->
  syncingFromProps (step e w) = true
  /\ outbound_syncs (step e w) = outbound_syncs w.
Proof.
  intros Hguard He. destruct e; simpl; try contradiction; auto.
  - unfold propsWatcher. destruct (syncingToProps w); auto.
  - unfold configurationWatcher. simpl. rewrite Hguard, andb_false_r.
    split; [exact Hguard|].
    rewrite outbound_syncs_emit by reflexivity. reflexivity.
  - unfold locationWatcher. destruct (hcloud w); auto.
  - unfold locationWatcher_resumed. destruct settled as [serverTypes|err]; simpl.
    + destruct (negb _); auto.
    + split; [exact Hguard|].
      unfold outbound_syncs. simpl. rewrite List.filter_app. simpl.
      apply app_nil_r.
Qed.

Lemma run_under_inbound_guard es : forall w,
  syncingFromProps w = true ->
  Forall (fun e => e <> PropsWatcherResumes) es ->
  syncingFromProps (run es w) = true
  /\ outbound_syncs (run es w) = outbound_syncs w.
Proof.
  induction es as [|e es IH]; intros w Hguard Hes; [auto|].
  inversion Hes as [|? ? He Hes']; subst.
  destruct (step_under_inbound_guard e w Hguard He) as [Hguard' Hsame].
  destruct (IH (step e w) Hguard' Hes') as [Hend Hlog].
  split; [exact Hend | rewrite <- Hsame; exact Hlog].
Qed.

(** Without the guard the same watcher does sync outwards. *)
Lemma outbound_when_unguarded w :
  validate (serverConfiguration w) = true ->
  syncingFromProps w = false ->
  outbound_syncs (configurationWatcher w)
  = (outbound_syncs w ++ [OutboundSync (toProps (serverConfiguration w))])%list.
Proof.
  intros Hvalid Hguard. unfold configurationWatcher. simpl.
  rewrite Hvalid, Hguard. simpl. unfold updateValue, outbound_syncs. simpl.
  rewrite !List.filter_app. simpl. rewrite app_nil_r. reflexivity.
Qed.

(** C6. From the moment the props watcher has raised [syncingFromProps]
    until its own resumption after [nextTick], whatever watchers, edits
    and resumptions run in between, no outbound sync is performed and the
    flag stays up; and while [syncingToProps] is up the props watcher
    changes nothing. *)
Theorem inbound_sync_excludes_outbound (w : state) (es : list Event) :
  Forall (fun e => e <> PropsWatcherResumes) es ->
  (syncingToProps w = false ->
     outbound_syncs (run es (propsWatcher w)) = outbound_syncs w
     /\ syncingFromProps (run es (propsWatcher w)) = true)
  /\ (syncingToProps w = true -> propsWatcher w = w).
Proof.
  intros Hes. split; intros Hto; unfold propsWatcher; rewrite Hto; [|reflexivity].
  destruct (run_under_inbound_guard es
              (with_serverConfiguration
                 (fromProps (props_value (with_syncingFromProps true w)))
                 (with_syncingFromProps true w))
              eq_refl Hes) as [Hup Hlog].
  split; [rewrite Hlog; reflexivity | exact Hup].
Qed.

Lemma inbound_sync_excludes_outbound_witness :
  syncingToProps (Sample.holding Sample.configuration) = false
  /\ outbound_syncs
       (run [ConfigurationWatcherRuns; UserEdits Sample.configuration;
             ConfigurationWatcherRuns; LocationWatcherRuns]
            (propsWatcher (Sample.holding Sample.configuration)))
     = outbound_syncs (Sample.holding Sample.configuration).
Proof.
  split; [reflexivity|].
  apply (inbound_sync_excludes_outbound (Sample.holding Sample.configuration)
           [ConfigurationWatcherRuns; UserEdits Sample.configuration;
            ConfigurationWatcherRuns; LocationWatcherRuns]).
  - repeat constructor; discriminate.
  - reflexivity.
Defined.

End Guards.

(** ** Pagination and the no-throw contract *)

Section Pagination.
Import Transport HetznerCloud.

Lemma request_serves {A} (transport : nat -> Outcome A) pages i page :
  serves transport pages ->
  pages !! i = Some page ->
  request transport (S i)
  = Return {| items := Some page; last_page := Some (length pages) |}.
Proof.
  intros Hserves Hi. destruct (Hserves i page Hi) as (status & text & Hok & Hout).
  unfold request. rewrite Hout, Hok. reflexivity.
Qed.

Lemma fetchPages_serves {A} (transport : nat -> Outcome A) pages :
  serves transport pages ->
  forall rest served acc fuel,
    pages = (served ++ rest)%list ->
    rest <> [] ->
    (length rest <= fuel)%nat ->
    fetchPages fuel transport (S (length served)) acc
    = Some (Return (acc ++ concat (until_empty rest))%list).
Proof.
  intros Hserves. induction rest as [|page rest IH];
    intros served acc fuel Hpages Hne Hfuel; [contradiction|].
  destruct fuel as [|fuel]; [simpl in Hfuel; lia|].
  assert (Hpage : pages !! length served = Some page).
  { rewrite Hpages. rewrite lookup_app_r by lia.
    replace (length served - length served)%nat with O by lia. reflexivity. }
  cbn [fetchPages]. rewrite (request_serves _ _ _ _ Hserves Hpage).
  cbn [items default]. unfold more_pages. cbn [items last_page].
  destruct page as [|item page]; cbn [until_empty nonempty].
  - simpl. reflexivity.
  - destruct rest as [|next rest].
    + assert (Hlast : Nat.leb (S (S (length served))) (length pages) = false).
      { apply Nat.leb_gt. rewrite Hpages, length_app. simpl. lia. }
      rewrite Hlast. simpl. rewrite app_nil_r. reflexivity.
    + assert (Hmore : Nat.leb (S (S (length served))) (length pages) = true).
      { apply Nat.leb_le. rewrite Hpages, length_app. simpl. lia. }
      rewrite Hmore.
      specialize (IH (served ++ [item :: page])%list
                     (acc ++ item :: page)%list fuel).
      rewrite length_app in IH. simpl in IH.
      replace (length served + 1)%nat with (S (length served)) in IH by lia.
      unfold id. rewrite IH.
      * cbn [concat until_empty]. rewrite <- app_assoc. reflexivity.
      * rewrite <- app_assoc. exact Hpages.
      * discriminate.
      * simpl in Hfuel. simpl. lia.
Qed.

Lemma until_empty_all {A} (pages : list (list A)) :
  Forall (fun page => page <> []) pages -> until_empty pages = pages.
Proof.
  induction 1 as [|page rest Hpage _ IH]; [reflexivity|].
  destruct page; [contradiction|]. simpl. rewrite IH. reflexivity.
Qed.

(** The loop of the paged client is exhaustive: with enough fuel it ends
    and has accumulated every page up to the first empty one, hence all
    of them when none is empty. *)
Lemma fetchPages_exhaustive {A} (transport : nat -> Outcome A) pages fuel :
  serves transport pages ->
  pages <> [] ->
  (length pages <= fuel)%nat ->
  fetchPages fuel transport 1 [] = Some (Return (concat (until_empty pages)))
  /\ (Forall (fun page => page <> []) pages ->
      accumulated fuel transport = concat pages).
Proof.
  intros Hserves Hne Hfuel.
  pose proof (fetchPages_serves transport pages Hserves pages [] [] fuel
                eq_refl Hne Hfuel) as Hloop.
  simpl in Hloop. split; [exact Hloop|].
  intros Hall. unfold accumulated. rewrite Hloop, (until_empty_all _ Hall).
  reflexivity.
Qed.

(** The single-request copy reads the first page and nothing else. *)
Lemma single_request_reads_one_page `{Host} (api : Api) first rest :
  serves (locations api) (first :: rest) ->
  HetznerCloudSinglePage.getLocations api
  = Return (map locationOption (Array_sort compareLocations first)).
Proof.
  intros Hserves. unfold HetznerCloudSinglePage.getLocations.
  rewrite (request_serves _ _ 0 first Hserves eq_refl). reflexivity.
Qed.

Lemma request_failure {A} (transport : nat -> Outcome A) n :
  failure (transport n) <-> exists e, request transport n = Throw e.
Proof.
  unfold failure, request. destruct (transport n) as [|status text json].
  - split; eauto.
  - destruct (ok status); simpl.
    + destruct json; split; intros Hf.
      * destruct Hf; discriminate.
      * destruct Hf; discriminate.
      * eauto.
      * auto.
    + split; [|auto]. intros _. destruct (Nat.eqb status 401); eauto.
Qed.

Lemma fetchPages_fails {A} (transport : nat -> Outcome A) n :
  fails_at transport n ->
  forall fuel page acc,
    (1 <= page <= n)%nat ->
    (n - page < fuel)%nat ->
    exists e, fetchPages fuel transport page acc = Some (Throw e).
Proof.
  intros (Hn & Hcontinues & Hfail).
  induction fuel as [|fuel IH]; intros page acc Hpage Hfuel; [lia|].
  cbn [fetchPages]. destruct (Nat.eq_dec page n) as [->|Hlt].
  - apply request_failure in Hfail. destruct Hfail as [e ->]. eauto.
  - destruct (Hcontinues page ltac:(lia)) as (response & -> & ->).
    apply IH; lia.
Qed.

Lemma fetchKind_never_throws {A} (transform : list A -> list HetznerOption)
    fuel (transport : nat -> Outcome A) e :
  fetchKind transform fuel transport <> Some (Throw e).
Proof.
  unfold fetchKind, try_catch, and_then.
  destruct (fetchPages fuel transport 1 []) as [[items|err]|]; discriminate.
Qed.

Lemma fetchKind_fails {A} (transform : list A -> list HetznerOption)
    fuel (transport : nat -> Outcome A) n :
  fails_at transport n -> (n <= fuel)%nat ->
  fetchKind transform fuel transport = Some (Return []).
Proof.
  intros Hfails Hfuel.
  destruct (fetchPages_fails transport n Hfails fuel 1%nat []) as [e He].
  - destruct Hfails as [Hn _]. lia.
  - destruct Hfails as [Hn _]. lia.
  - unfold fetchKind. rewrite He. reflexivity.
Qed.

(** C8, as stated, fails for an ill-shaped body: a second page whose body
    parses but has no item array is not a failed request; it ends the loop
    and the operation returns the options of the first page, not the empty
    list. *)
Lemma ill_shaped_page_keeps_earlier_items :
  locations Sample.shapeless 2
  = Responded 200 "OK" (Some {| items := None; last_page := None |})
  /\ fetch (H := Sample.host) Locations 2 Sample.shapeless
     = Some (Return [Sample.fsn1_option])
  /\ [Sample.fsn1_option] <> [].
Proof.
  split; [reflexivity|]. split; [vm_compute; reflexivity | discriminate].
Qed.

(** C8, amended. No operation settles with a thrown error, and whenever a
    request issued by the operation fails (network error, non-2xx status
    such as 401, body that does not parse as JSON), at the first page or at
    any later page that the loop reaches, the operation returns the empty
    list. *)
Theorem fetch_never_throws `{Host} (k : Kind) (fuel : nat) (api : Api) :
  (forall e, fetch k fuel api <> Some (Throw e))
  /\ (forall n, kind_fails_at k api n -> (n <= fuel)%nat ->
        fetch k fuel api = Some (Return [])).
Proof.
  split.
  - intros e. destruct k; apply fetchKind_never_throws.
  - intros n Hfails Hfuel. destruct k; simpl in Hfails;
      eapply fetchKind_fails; eauto.
Qed.

(** A first page whose body parses but has no item array also yields the
    empty list. *)
Lemma fetchKind_no_items {A} (transform : list A -> list HetznerOption)
    fuel (transport : nat -> Outcome A) last :
  transform [] = [] ->
  request transport 1 = Return {| items := None; last_page := last |} ->
  fetchKind transform (S fuel) transport = Some (Return []).
Proof.
  intros Hempty Hrequest. unfold fetchKind. cbn [fetchPages].
  rewrite Hrequest. simpl. rewrite Hempty. reflexivity.
Qed.

End Pagination.

(** ** Sorting *)

Section Sorting.
Context {A : Type} (cmp : A -> A -> comparison).

Lemma Array_insert_perm x l : Permutation (Array_insert cmp x l) (x :: l).
Proof.
  induction l as [|y r IH]; simpl; [reflexivity|].
  destruct (cmp x y); try reflexivity.
  rewrite IH. apply perm_swap.
Qed.

Lemma Array_sort_perm l : Permutation (Array_sort cmp l) l.
Proof.
  induction l as [|x l IH]; simpl; [reflexivity|].
  rewrite Array_insert_perm. constructor. exact IH.
Qed.

Lemma Array_sort_In x l : In x (Array_sort cmp l) <-> In x l.
Proof.
  split; apply Permutation_in; [|symmetry]; apply Array_sort_perm.
Qed.

Lemma Array_sort_nonempty l : nonempty (Array_sort cmp l) = nonempty l.
Proof.
  pose proof (Permutation_length (Array_sort_perm l)) as Hlen.
  destruct l, (Array_sort cmp _); simpl in *; congruence.
Qed.

Hypothesis cmp_antisym : forall a b, cmp b a = CompOpp (cmp a b).
Hypothesis cmp_trans :
  forall a b c, cmp a b <> Gt -> cmp b c <> Gt -> cmp a c <> Gt.

Let le (a b : A) : Prop := cmp a b <> Gt.

Lemma Array_insert_sorted x l :
  StronglySorted le l -> StronglySorted le (Array_insert cmp x l).
Proof.
  induction 1 as [|y r Hr IH Hy]; simpl; [repeat constructor|].
  destruct (cmp x y) eqn:Hxy.
  - constructor; [constructor; assumption|].
    constructor; [unfold le; congruence|].
    eapply List.Forall_impl; [|exact Hy]. intros z Hz.
    apply (cmp_trans x y z); [congruence | exact Hz].
  - constructor; [constructor; assumption|].
    constructor; [unfold le; congruence|].
    eapply List.Forall_impl; [|exact Hy]. intros z Hz.
    apply (cmp_trans x y z); [congruence | exact Hz].
  - constructor; [exact IH|].
    apply List.Forall_forall. intros z Hz.
    apply (Permutation_in _ (Array_insert_perm x r)) in Hz.
    destruct Hz as [<-|Hz].
    + unfold le. rewrite cmp_antisym, Hxy. discriminate.
    + revert z Hz. apply List.Forall_forall. exact Hy.
Qed.

Lemma Array_sort_sorted l : StronglySorted le (Array_sort cmp l).
Proof.
  induction l as [|x l IH]; simpl; [constructor|].
  apply Array_insert_sorted. exact IH.
Qed.

End Sorting.

(** ** Instance types *)

Section InstanceTypes.
Import Transport HetznerCloud.

Lemma fetchKind_result {A} (transform : list A -> list HetznerOption)
    fuel (transport : nat -> Outcome A) opts :
  transform [] = [] ->
  fetchKind transform fuel transport = Some (Return opts) ->
  opts = transform (accumulated fuel transport).
Proof.
  intros Hempty. unfold fetchKind, accumulated.
  destruct (fetchPages fuel transport 1 []) as [[items|err]|]; simpl;
    congruence.
Qed.

Context `{host : Host}.

Lemma serverTypeOptions_nil location : serverTypeOptions location [] = [].
Proof. reflexivity. Qed.

Lemma keptServerTypes_nil location : keptServerTypes location [] = [].
Proof. unfold keptServerTypes. destruct (JS.truthy_opt _ _); reflexivity. Qed.

Lemma nonempty_length {A} (l : list A) : Nat.ltb 0 (length l) = nonempty l.
Proof. destruct l; reflexivity. Qed.

(** The list that [getServerTypes] builds by pushing, written as one
    concatenation. *)
Lemma serverTypeOptions_shape location items :
  let ded := dedicatedTypes location items in
  let sh := sharedTypes location items in
  serverTypeOptions location items
  = ((if nonempty ded then [dedicatedHeader] else [])
     ++ map (formatServerType location) ded
     ++ (if (nonempty sh && nonempty ded)%bool then [sharedHeader] else [])
     ++ map (formatServerType location) sh)%list.
Proof.
  intros ded sh. subst ded sh. destruct items as [|item items].
  - unfold dedicatedTypes, sharedTypes. rewrite keptServerTypes_nil. reflexivity.
  - unfold serverTypeOptions. cbn [length Nat.eqb]. cbv zeta.
    rewrite !nonempty_length.
    destruct (dedicatedTypes location (item :: items)),
      (sharedTypes location (item :: items)); simpl;
      rewrite ?app_nil_r; try reflexivity.
    rewrite <- app_assoc. reflexivity.
Qed.

Lemma typed_In c location items type :
  In type (Array_sort compareNames
             (List.filter (is_cpu c) (keptServerTypes location items))) ->
  ServerTypeResponse.cpu_type type = c
  /\ In type (keptServerTypes location items).
Proof.
  rewrite Array_sort_In, filter_In. intros [Hkept Hcpu]. split; [|exact Hkept].
  unfold is_cpu in Hcpu.
  destruct c, (ServerTypeResponse.cpu_type type); congruence.
Qed.

Lemma formatted_not_header location types :
  Forall (fun o => ~ is_header o) (map (formatServerType location) types).
Proof.
  apply List.Forall_forall. intros o Ho. apply in_map_iff in Ho.
  destruct Ho as (type & <- & _). unfold is_header. simpl. discriminate.
Qed.

Lemma headers_disabled location items :
  Forall (fun o => is_header o -> disabled o = Some true)
         (serverTypeOptions location items).
Proof.
  rewrite serverTypeOptions_shape. cbv zeta.
  repeat apply Forall_app_2.
  - destruct (nonempty _); repeat constructor.
  - eapply List.Forall_impl; [|apply formatted_not_header].
    intros o Hno Ho. contradiction.
  - destruct (_ && _)%bool; repeat constructor.
  - eapply List.Forall_impl; [|apply formatted_not_header].
    intros o Hno Ho. contradiction.
Qed.

(** C7. In every result of [getServerTypes] the dedicated types come
    first and the shared types after them, each class sorted by name; the
    dedicated header is there exactly when there are dedicated types and
    stands before them; the shared header is there exactly when there are
    both shared and dedicated types and stands before the shared ones;
    every header has [disabled = true], and no formatted type is a
    header. *)
Theorem server_type_groups {laws : HostLaws host} (fuel : nat) (api : Api)
    (location : option string) (opts : list HetznerOption) :
  getServerTypes fuel api location = Some (Return opts) ->
  let items := accumulated fuel (server_types api) in
  let ded := dedicatedTypes location items in
  let sh := sharedTypes location items in
  opts = ((if nonempty ded then [dedicatedHeader] else [])
          ++ map (formatServerType location) ded
          ++ (if (nonempty sh && nonempty ded)%bool then [sharedHeader] else [])
          ++ map (formatServerType location) sh)%list
  /\ Forall (fun type => ServerTypeResponse.cpu_type type = dedicated) ded
  /\ Forall (fun type => ServerTypeResponse.cpu_type type = shared) sh
  /\ StronglySorted by_name ded
  /\ StronglySorted by_name sh
  /\ Forall (fun o => is_header o -> disabled o = Some true) opts
  /\ Forall (fun o => ~ is_header o)
       (map (formatServerType location) (ded ++ sh)%list)
  /\ is_header dedicatedHeader /\ is_header sharedHeader.
Proof.
  intros Hfetch items ded sh.
  apply (fetchKind_result _ _ _ _ (serverTypeOptions_nil location)) in Hfetch.
  fold items in Hfetch. subst opts.
  split; [apply serverTypeOptions_shape|].
  split; [apply List.Forall_forall; intros type Hin;
          apply (typed_In dedicated) in Hin; tauto|].
  split; [apply List.Forall_forall; intros type Hin;
          apply (typed_In shared) in Hin; tauto|].
  split; [apply (Array_sort_sorted compareNames);
          [intros a b; apply localeCompare_antisym
          |intros a b c; apply localeCompare_trans]|].
  split; [apply (Array_sort_sorted compareNames);
          [intros a b; apply localeCompare_antisym
          |intros a b c; apply localeCompare_trans]|].
  split; [apply headers_disabled|].
  split; [apply formatted_not_header|].
  split; reflexivity.
Qed.

Lemma existsb_find {A} (f : A -> bool) l :
  existsb f l = true -> exists x, find f l = Some x /\ In x l /\ f x = true.
Proof.
  induction l as [|y l IH]; simpl; [discriminate|].
  destruct (f y) eqn:Hy; simpl.
  - intros _. exists y. auto.
  - intros Hl. destruct (IH Hl) as (x & Hfind & Hin & Hx). exists x. auto.
Qed.

(** A type that passed the location filter has a price segment. *)
Lemma kept_priceLabel loc items type :
  loc <> "" ->
  In type (keptServerTypes (Some loc) items) ->
  In type items
  /\ exists price,
       In price (ServerTypeResponse.prices type)
       /\ Price.location price = loc
       /\ priceLabel (Some loc) type
          = "€" ++ toFixed2 (Price.price_monthly_gross price) ++ "/mo, ".
Proof.
  intros Hloc. unfold keptServerTypes, priceLabel.
  assert (Htruthy : JS.truthy_opt JS.truthy_string (Some loc) = true)
    by (destruct loc; [contradiction | reflexivity]).
  rewrite Htruthy. cbn [default from_option]. unfold id.
  rewrite !filter_In. intros [[Hin _] Hpriced]. split; [exact Hin|].
  destruct (existsb_find _ _ Hpriced) as (price & -> & Hprice & Heq).
  exists price. split; [exact Hprice|]. split; [|reflexivity].
  apply String.eqb_eq. exact Heq.
Qed.

(** C10. When a location is passed to [getServerTypes], every option of
    the result that is not a header was formatted from a fetched type that
    has a price for that location, and its label carries that price:
    the branch without a price is not taken. *)
Theorem filtered_types_are_priced (fuel : nat) (api : Api) (loc : string)
    (opts : list HetznerOption) :
  loc <> "" ->
  getServerTypes fuel api (Some loc) = Some (Return opts) ->
  forall o, In o opts -> ~ is_header o ->
    exists type price,
      In type (accumulated fuel (server_types api))
      /\ In price (ServerTypeResponse.prices type)
      /\ Price.location price = loc
      /\ priceLabel (Some loc) type
         = "€" ++ toFixed2 (Price.price_monthly_gross price) ++ "/mo, "
      /\ label o
         = ServerTypeResponse.name type ++ " ("
           ++ ("€" ++ toFixed2 (Price.price_monthly_gross price) ++ "/mo, ")
           ++ ServerTypeResponse.architecture type ++ ", "
           ++ JS.number_toString (ServerTypeResponse.cores type) ++ " vCPU, "
           ++ JS.number_toString (ServerTypeResponse.memory type) ++ " GB RAM, "
           ++ JS.number_toString (ServerTypeResponse.disk type) ++ " GB SSD)".
Proof.
  intros Hloc Hfetch o Ho Hnot.
  apply (fetchKind_result _ _ _ _ (serverTypeOptions_nil (Some loc))) in Hfetch.
  subst opts. rewrite serverTypeOptions_shape in Ho. cbv zeta in Ho.
  assert (Hfmt : exists c type,
             In type (Array_sort compareNames
                        (List.filter (is_cpu c)
                           (keptServerTypes (Some loc)
                              (accumulated fuel (server_types api)))))
             /\ o = formatServerType (Some loc) type).
  { rewrite !in_app_iff in Ho. destruct Ho as [Ho|[Ho|[Ho|Ho]]].
    - destruct (nonempty _); [|contradiction].
      destruct Ho as [<-|[]]. exfalso. apply Hnot. reflexivity.
    - apply in_map_iff in Ho. destruct Ho as (type & <- & Hin).
      exists dedicated, type. auto.
    - destruct (_ && _)%bool; [|contradiction].
      destruct Ho as [<-|[]]. exfalso. apply Hnot. reflexivity.
    - apply in_map_iff in Ho. destruct Ho as (type & <- & Hin).
      exists shared, type. auto. }
  destruct Hfmt as (c & type & Hin & ->).
  apply typed_In in Hin. destruct Hin as [_ Hkept].
  destruct (kept_priceLabel loc _ type Hloc Hkept)
    as (Hitem & price & Hprice & Hat & Hlabel).
  exists type, price. repeat (split; [assumption|]).
  unfold formatServerType. cbn [label]. rewrite Hlabel. reflexivity.
Qed.

End InstanceTypes.

(** ** The sample host and the sample catalogue *)

Section Samples.
Import Transport HetznerCloud.

#[local] Existing Instance Sample.host.

Lemma compare_not_Gt a b : String.compare a b <> Gt <-> String.le a b.
Proof.
  unfold String.le, String.leb. destruct (String.compare a b); simpl;
    intuition congruence.
Qed.

Lemma sample_host_laws : HostLaws Sample.host.
Proof.
  split; simpl.
  - intros a b. apply String.compare_antisym.
  - intros a b c. rewrite !compare_not_Gt. intros Hab Hbc.
    transitivity b; assumption.
Qed.

Example catalogue_locations :
  getLocations 2 Sample.catalogue
  = Some (Return [Sample.fsn1_option; Sample.hel1_option]).
Proof. vm_compute. reflexivity. Qed.

Example catalogue_types_in_fsn1 :
  getServerTypes 2 Sample.catalogue (Some "fsn1")
  = Some (Return Sample.fsn1_types).
Proof. vm_compute. reflexivity. Qed.

Example fsn1_label :
  label Sample.fsn1_option = "FSN1 - Falkenstein, Germany".
Proof. vm_compute. reflexivity. Qed.

(** C4. On a provider that serves two pages of one location each, with
    [last_page = 2], the paged client returns both locations, while the
    single-request copy of the client returns the location of the first
    page only. *)
Theorem single_request_client_returns_first_page :
  serves (locations Sample.catalogue) [[Sample.fsn1]; [Sample.hel1]]
  /\ getLocations 2 Sample.catalogue
     = Some (Return [Sample.fsn1_option; Sample.hel1_option])
  /\ HetznerCloudSinglePage.getLocations Sample.catalogue
     = Return [Sample.fsn1_option].
Proof.
  split; [|split; vm_compute; reflexivity].
  intros i page Hpage. exists 200%nat, "OK". split; [reflexivity|].
  simpl. unfold Sample.paged. rewrite Hpage. reflexivity.
Qed.

Lemma server_type_groups_witness :
  getServerTypes 2 Sample.catalogue (Some "fsn1")
  = Some (Return Sample.fsn1_types)
  /\ Forall (fun o => is_header o -> disabled o = Some true) Sample.fsn1_types
  /\ StronglySorted by_name
       (sharedTypes (Some "fsn1") (accumulated 2 (server_types Sample.catalogue))).
Proof.
  split; [vm_compute; reflexivity|].
  destruct (server_type_groups (laws := sample_host_laws) 2 Sample.catalogue
              (Some "fsn1") Sample.fsn1_types)
    as (_ & _ & _ & _ & Hsorted & Hdisabled & _).
  - vm_compute. reflexivity.
  - split; [exact Hdisabled | exact Hsorted].
Defined.

Lemma filtered_types_are_priced_witness :
  exists type price,
    In type (accumulated 2 (server_types Sample.catalogue))
    /\ Price.location price = "fsn1"
    /\ priceLabel (Some "fsn1") type
       = "€" ++ Price.price_monthly_gross price ++ "/mo, ".
Proof.
  destruct (filtered_types_are_priced 2 Sample.catalogue "fsn1"
              Sample.fsn1_types)
    with (o := formatServerType (Some "fsn1") Sample.cx22)
    as (type & price & Hin & _ & Hat & Hlabel & _).
  - discriminate.
  - vm_compute. reflexivity.
  - simpl. auto.
  - unfold is_header. simpl. discriminate.
  - exists type, price. auto.
Defined.

Lemma fetch_never_throws_witness :
  kind_fails_at Images Sample.catalogue 1
  /\ fetch Images 1 Sample.catalogue = Some (Return []).
Proof.
  assert (Hfails : kind_fails_at Images Sample.catalogue 1).
  { split; [lia|]. split; [intros i Hi; lia|]. simpl. left. reflexivity. }
  split; [exact Hfails|].
  apply (proj2 (fetch_never_throws Images 1 Sample.catalogue) 1%nat Hfails).
  lia.
Defined.

End Samples.

(** ** Uniqueness of option values *)

Section Uniqueness.
Import Transport HetznerCloud.

(** C9, as stated, fails: nothing removes duplicates. A location served
    on two pages appears twice in the result. *)
Lemma repeated_item_repeats_value :
  fetch (H := Sample.host) Locations 2 Sample.repeating
  = Some (Return [Sample.fsn1_option; Sample.fsn1_option])
  /\ ~ List.NoDup (map value [Sample.fsn1_option; Sample.fsn1_option]).
Proof.
  split; [vm_compute; reflexivity|].
  intros Hnodup. inversion Hnodup as [|? ? Hnotin _]; subst.
  apply Hnotin. left. reflexivity.
Qed.

Lemma NoDup_map_filter {A B} (f : A -> B) (p : A -> bool) l :
  List.NoDup (map f l) -> List.NoDup (map f (List.filter p l)).
Proof.
  induction l as [|x l IH]; simpl; [auto|].
  intros Hnodup. inversion Hnodup as [|? ? Hnotin Hrest]; subst.
  destruct (p x); simpl; [|auto].
  constructor; [|auto].
  intros Hin. apply Hnotin. apply in_map_iff in Hin.
  destruct Hin as (y & Hy & Hin). apply filter_In in Hin.
  apply in_map_iff. exists y. tauto.
Qed.

Lemma filter_split {A} (p : A -> bool) l :
  Permutation (List.filter p l ++ List.filter (fun x => negb (p x)) l) l.
Proof.
  induction l as [|x l IH]; simpl; [reflexivity|].
  destruct (p x); simpl.
  - constructor. exact IH.
  - rewrite <- Permutation_middle. constructor. exact IH.
Qed.

(** Values of options made one per item, from a rearrangement of the
    items. *)
Lemma mapped_values {A} (key : A -> OptionValue) (opt : A -> HetznerOption)
    (l l' : list A) :
  (forall a, value (opt a) = key a) ->
  Permutation l' l ->
  List.NoDup (map key l) ->
  List.NoDup (map value (map opt l')).
Proof.
  intros Hkey Hperm Hnodup. rewrite map_map.
  rewrite (List.map_ext _ key Hkey).
  eapply Permutation_NoDup; [|exact Hnodup].
  apply Permutation_map. symmetry. exact Hperm.
Qed.

Lemma mapped_no_header {A} (opt : A -> HetznerOption) (l : list A) :
  (forall a, kind (opt a) = None) ->
  Forall (fun o => is_header o -> disabled o = Some true) (map opt l).
Proof.
  intros Hkind. apply List.Forall_forall. intros o Ho.
  apply in_map_iff in Ho. destruct Ho as (a & <- & _).
  unfold is_header. rewrite Hkind. discriminate.
Qed.

Context `{host : Host}.

Lemma classes_partition location items :
  Permutation (dedicatedTypes location items ++ sharedTypes location items)
              (keptServerTypes location items).
Proof.
  unfold dedicatedTypes, sharedTypes. rewrite !Array_sort_perm.
  rewrite (List.filter_ext (is_cpu shared)
             (fun type => negb (is_cpu dedicated type))).
  - apply filter_split.
  - intros type. unfold is_cpu. destruct (ServerTypeResponse.cpu_type type);
      reflexivity.
Qed.

Lemma kept_keys_NoDup location items :
  List.NoDup (map type_key items) ->
  List.NoDup (map type_key (keptServerTypes location items)).
Proof.
  intros Hnodup. unfold keptServerTypes.
  destruct (JS.truthy_opt _ _); repeat apply NoDup_map_filter; exact Hnodup.
Qed.

Lemma kept_keys_In location items type :
  In type (keptServerTypes location items) -> In type items.
Proof.
  unfold keptServerTypes. destruct (JS.truthy_opt _ _);
    rewrite ?filter_In; tauto.
Qed.

Lemma serverTypeOptions_values location items :
  List.NoDup (map type_key items) ->
  ~ In (VStr "dedicated-header") (map type_key items) ->
  ~ In (VStr "shared-header") (map type_key items) ->
  List.NoDup (map value (serverTypeOptions location items)).
Proof.
  intros Hnodup Hded Hsh. rewrite serverTypeOptions_shape. cbv zeta.
  set (ded := dedicatedTypes location items).
  set (sh := sharedTypes location items).
  assert (Hperm : Permutation (ded ++ sh) (keptServerTypes location items))
    by apply classes_partition.
  assert (Hnames : List.NoDup (map type_key (ded ++ sh))).
  { eapply Permutation_NoDup;
      [apply Permutation_map; symmetry; exact Hperm|].
    apply kept_keys_NoDup. exact Hnodup. }
  assert (Hsub : forall v, In v (map type_key (ded ++ sh)) ->
                           In v (map type_key items)).
  { intros v Hv. apply in_map_iff in Hv. destruct Hv as (type & <- & Hin).
    apply in_map. apply (kept_keys_In location).
    eapply Permutation_in; [exact Hperm | exact Hin]. }
  assert (Hvalues : forall l, map value (map (formatServerType location) l)
                              = map type_key l).
  { intros l. rewrite map_map. reflexivity. }
  rewrite map_app in Hnames.
  rewrite !map_app, !Hvalues.
  assert (Hd : ~ In (VStr "dedicated-header")
                    (map type_key ded ++ map type_key sh))
    by (intros Hin; apply Hded, Hsub; rewrite map_app; exact Hin).
  assert (Hs : ~ In (VStr "shared-header")
                    (map type_key ded ++ map type_key sh))
    by (intros Hin; apply Hsh, Hsub; rewrite map_app; exact Hin).
  destruct (nonempty ded), (nonempty sh); simpl.
  - constructor.
    + rewrite in_app_iff. simpl. rewrite in_app_iff in Hd.
      intros [Hin|[Heq|Hin]]; [tauto | discriminate | tauto].
    + eapply Permutation_NoDup; [apply Permutation_middle|].
      constructor; [exact Hs | exact Hnames].
  - constructor; [exact Hd | exact Hnames].
  - exact Hnames.
  - exact Hnames.
Qed.

Ltac one_option_per_item Hnodup :=
  split;
  [ eapply mapped_values; [ intros a; reflexivity | | exact Hnodup ];
    first [ apply Array_sort_perm | reflexivity ]
  | apply mapped_no_header; intros a; reflexivity ].

(** C9, amended. Uniqueness is inherited, not enforced: when the names
    (for locations and instance types) or ids (for the other kinds) of
    the items accumulated over the pages are pairwise distinct, and no
    instance type is named like a header sentinel, the values of the
    returned options are pairwise distinct; and every group header has
    [disabled = true]. *)
Theorem values_unique_when_keys_are (k : Kind) (fuel : nat) (api : Api)
    (opts : list HetznerOption) :
  fetch k fuel api = Some (Return opts) ->
  List.NoDup (fetched_keys k fuel api) ->
  (forall location, k = ServerTypes location ->
     ~ In (VStr "dedicated-header") (fetched_keys k fuel api)
     /\ ~ In (VStr "shared-header") (fetched_keys k fuel api)) ->
  List.NoDup (map value opts)
  /\ Forall (fun o => is_header o -> disabled o = Some true) opts.
Proof.
  intros Hfetch Hnodup Hsentinels.
  destruct k as [|location| | | | |]; simpl in Hfetch, Hnodup;
    apply fetchKind_result in Hfetch; try reflexivity; subst opts.
  - unfold locationOptions. destruct (Nat.eqb _ 0).
    + split; constructor.
    + one_option_per_item Hnodup.
  - destruct (Hsentinels location eq_refl) as [Hded Hsh].
    split; [|apply headers_disabled].
    apply serverTypeOptions_values; assumption.
  - unfold imageOptions. one_option_per_item Hnodup.
  - unfold namedOptions. destruct (Nat.eqb _ 0).
    + split; constructor.
    + one_option_per_item Hnodup.
  - unfold networkOptions. destruct (Nat.eqb _ 0).
    + split; constructor.
    + one_option_per_item Hnodup.
  - unfold namedOptions. destruct (Nat.eqb _ 0).
    + split; constructor.
    + one_option_per_item Hnodup.
  - unfold namedOptions. destruct (Nat.eqb _ 0).
    + split; constructor.
    + one_option_per_item Hnodup.
Qed.

End Uniqueness.

Lemma values_unique_when_keys_are_witness :
  List.NoDup (map value Sample.fsn1_types)
  /\ Forall (fun o => is_header o -> disabled o = Some true) Sample.fsn1_types.
Proof.
  apply (values_unique_when_keys_are (host := Sample.host)
           (HetznerCloud.ServerTypes (Some "fsn1")) 2 Sample.catalogue).
  - vm_compute. reflexivity.
  - vm_compute. repeat constructor; simpl; intuition discriminate.
  - intros location _. vm_compute. split; intuition discriminate.
Defined.

(** ** Numbers and their decimal strings *)

Section Numbers.

Lemma trimEnd_spaceless s : spaceless s = true -> JS.trimEnd s = s.
Proof.
  induction s as [|c r IH]; simpl; [reflexivity|].
  intros [Hc Hr]%andb_prop. rewrite (IH Hr).
  destruct r; [|reflexivity].
  apply negb_true_iff in Hc. rewrite Hc. reflexivity.
Qed.

Lemma trim_spaceless s : spaceless s = true -> JS.trim s = s.
Proof.
  intros Hs. unfold JS.trim.
  assert (Hstart : JS.trimStart s = s).
  { destruct s as [|c r]; simpl in *; [reflexivity|].
    apply andb_prop in Hs. destruct Hs as [Hc _].
    apply negb_true_iff in Hc. rewrite Hc. reflexivity. }
  rewrite Hstart. apply trimEnd_spaceless. exact Hs.
Qed.

Lemma spaceless_uint d : spaceless (NilEmpty.string_of_uint d) = true.
Proof. induction d; simpl; auto. Qed.

Lemma digits_uint d :
  d <> Decimal.Nil ->
  JS.digits (NilEmpty.string_of_uint d) = Some (Z.of_uint d).
Proof.
  intros Hd. unfold JS.digits.
  rewrite NilEmpty.usu. destruct d; try contradiction; reflexivity.
Qed.

Lemma Number_of_uint d :
  d <> Decimal.Nil ->
  JS.Number_of_string (NilEmpty.string_of_uint d) = JS.Int (Z.of_uint d).
Proof.
  intros Hd. unfold JS.Number_of_string.
  rewrite (trim_spaceless _ (spaceless_uint d)).
  pose proof (digits_uint d Hd) as Hdigits.
  destruct d; try contradiction;
    cbn [NilEmpty.string_of_uint] in *; unfold JS.signed; rewrite Hdigits;
    reflexivity.
Qed.

Lemma Number_of_negative d :
  d <> Decimal.Nil ->
  JS.Number_of_string (String "-" (NilEmpty.string_of_uint d))
  = JS.Int (- Z.of_uint d).
Proof.
  intros Hd. unfold JS.Number_of_string.
  rewrite trim_spaceless by (simpl; apply spaceless_uint).
  unfold JS.signed. rewrite (digits_uint d Hd). reflexivity.
Qed.

(** [Number(n.toString())] is [n]. *)
Lemma Number_toString n : JS.Number_of_string (JS.number_toString n) = n.
Proof.
  destruct n as [z|]; [|reflexivity].
  destruct z as [|p|p]; [reflexivity| |]; simpl.
  - pose proof (DecimalPos.Unsigned.to_uint_nonnil p) as Hp.
    unfold NilZero.string_of_uint.
    assert (Hs : JS.Number_of_string (NilEmpty.string_of_uint (Pos.to_uint p))
                 = JS.Int (Z.pos p)).
    { rewrite (Number_of_uint _ Hp). unfold Z.of_uint.
      rewrite DecimalPos.Unsigned.of_to. reflexivity. }
    destruct (Pos.to_uint p); try contradiction; exact Hs.
  - pose proof (DecimalPos.Unsigned.to_uint_nonnil p) as Hp.
    unfold NilZero.string_of_uint.
    assert (Hs : JS.Number_of_string
                   (String "-" (NilEmpty.string_of_uint (Pos.to_uint p)))
                 = JS.Int (Z.neg p)).
    { rewrite (Number_of_negative _ Hp). unfold Z.of_uint.
      rewrite DecimalPos.Unsigned.of_to. reflexivity. }
    destruct (Pos.to_uint p); try contradiction; exact Hs.
Qed.

End Numbers.

(** ** Round trip through the host record *)

Section RoundTrip.
Import Reconciler.

Lemma append_cons c a b : (String c a ++ b)%string = String c (a ++ b)%string.
Proof. reflexivity. Qed.

Lemma split_plain sep s : has_char sep s = false -> JS.split sep s = [s].
Proof.
  induction s as [|c r IH]; simpl; [reflexivity|].
  intros [Hc Hr]%orb_false_elim. rewrite Hc, (IH Hr). reflexivity.
Qed.

Lemma split_key_value key v :
  has_char "="%char key = false ->
  has_char "="%char v = false ->
  JS.split "="%char (key ++ "=" ++ v)%string = [key; v].
Proof.
  intros Hkey Hv. induction key as [|c key IH].
  - change ("" ++ "=" ++ v)%string with (String "="%char v).
    simpl. rewrite (split_plain _ _ Hv). reflexivity.
  - simpl in Hkey. apply orb_false_elim in Hkey. destruct Hkey as [Hc Hkey].
    rewrite append_cons. simpl. rewrite Hc, (IH Hkey). reflexivity.
Qed.

Lemma fromEntries_plain (l : list (string * option string)) :
  Forall (uncurry plain_label) l ->
  forall o : gmap string (option string),
    foldl (fun o e => <[JS.entry_key e := JS.entry_value e]> o) o
      (map (JS.split "="%char)
         (map (fun '(key, v) => (key ++ "=" ++ JS.interpolate v)%string) l))
    = foldl (fun o (p : string * option string) => <[p.1 := p.2]> o) o l.
Proof.
  induction 1 as [|[key v] l [Hkey (s & -> & Hs)] _ IH]; intros o;
    [reflexivity|].
  simpl. rewrite (split_key_value key s Hkey Hs). apply IH.
Qed.

Lemma foldl_insert_list_to_map (l : list (string * option string)) :
  NoDup (l.*1) ->
  foldl (fun o (p : string * option string) => <[p.1 := p.2]> o)
    (∅ : gmap string (option string)) l
  = list_to_map l.
Proof.
  induction l as [|[key v] l IH] using rev_ind; intros Hnodup; [reflexivity|].
  rewrite fmap_app in Hnodup. apply NoDup_app in Hnodup.
  destruct Hnodup as (Hl & Hfresh & _).
  rewrite foldl_snoc, (IH Hl). simpl. symmetry. apply list_to_map_snoc.
  intros Hin. apply (Hfresh key Hin). simpl. left.
Qed.

(** The labels come back when none of them has [=] in its key or value. *)
Lemma labels_round_trip (labels : gmap string (option string)) :
  map_Forall plain_label labels ->
  decode_labels (label_strings (Some labels)) = labels.
Proof.
  intros Hplain. unfold decode_labels, label_strings, JS.Object_fromEntries,
    JS.Object_entries. cbn [default from_option]. unfold id.
  rewrite fromEntries_plain by (apply map_Forall_to_list; exact Hplain).
  rewrite foldl_insert_list_to_map by apply NoDup_fst_map_to_list.
  apply list_to_map_to_list.
Qed.

Lemma decode_number_round_trip x : decode_number (number_or_undefined x) = x.
Proof. destruct x as [n|]; simpl; [rewrite Number_toString|]; reflexivity. Qed.

Lemma decode_key_round_trip x : decode_key (number_or_undefined x) = x.
Proof. destruct x as [n|]; simpl; [rewrite Number_toString|]; reflexivity. Qed.

Lemma decode_string_round_trip x : decode_string (string_or_undefined x) = x.
Proof. destruct x; reflexivity. Qed.

Lemma decode_ids_round_trip ids :
  decode_ids (id_strings (Some ids)) = ids.
Proof.
  simpl. induction ids as [|id ids IH]; simpl; [reflexivity|].
  rewrite Number_toString, IH. reflexivity.
Qed.

Lemma or_empty_id s : or_empty (Some s) = s.
Proof. destruct s; reflexivity. Qed.

(** C1, as stated, fails in each of the three cases it names: unset user
    data comes back as the empty string, a label value with [=] in it
    comes back cut at the [=], and protocol flags that were [true] under a
    disabled public network come back [false]. *)
Lemma round_trip_changes_state :
  validate Sample.moved = true
  /\ validate Sample.configuration = true
  /\ C.additionalUserData (serverConfiguration (round_trip (Sample.holding Sample.moved)))
     <> C.additionalUserData Sample.moved
  /\ C.serverLabels (serverConfiguration (round_trip (Sample.holding Sample.moved)))
     <> C.serverLabels Sample.moved
  /\ C.disablePublicIpv4
       (serverConfiguration (round_trip (Sample.holding Sample.configuration)))
     <> C.disablePublicIpv4 Sample.configuration.
Proof.
  split; [reflexivity|]. split; [reflexivity|].
  split; [vm_compute; discriminate|].
  split; [|vm_compute; discriminate].
  intros Heq.
  apply (f_equal (fun labels => labels ≫= (fun m => m !! "role"))) in Heq.
  vm_compute in Heq. discriminate.
Qed.

(** The round trip at the level of the two records. *)
Lemma fromProps_toProps_fixed (c : ServerConfiguration.t)
    (data : string) (networks firewalls : list JS.number)
    (labels : gmap string (option string)) (network_disabled : bool) :
  C.additionalUserData c = Some data ->
  C.networkIds c = Some networks ->
  C.firewallIds c = Some firewalls ->
  C.serverLabels c = Some labels ->
  map_Forall plain_label labels ->
  C.disablePublicNetwork c = Some network_disabled ->
  (network_disabled = true ->
     C.disablePublicIpv4 c = Some false /\ C.disablePublicIpv6 c = Some false) ->
  fromProps (toProps c) = c.
Proof.
  intros Hdata Hnetworks Hfirewalls Hlabels Hplain Hdisabled Hflags.
  unfold fromProps, toProps. cbn [V.serverType V.serverLocation V.imageId
    V.placementGroup V.networks V.firewalls V.existingKeyId
    V.usePrivateNetwork V.disablePublic V.disablePublicIpv4
    V.disablePublicIpv6 V.additionalUserData V.serverLabel].
  rewrite !decode_number_round_trip, decode_key_round_trip,
    !decode_string_round_trip.
  rewrite Hnetworks, Hfirewalls, Hlabels, Hdata, Hdisabled.
  rewrite !decode_ids_round_trip, or_empty_id, (labels_round_trip _ Hplain).
  assert (Hfour :
            (if JS.truthy_flag (Some network_disabled) then Some false
             else C.disablePublicIpv4 c) = C.disablePublicIpv4 c
            /\ (if JS.truthy_flag (Some network_disabled) then Some false
                else C.disablePublicIpv6 c) = C.disablePublicIpv6 c).
  { destruct network_disabled; simpl; [|auto].
    destruct (Hflags eq_refl) as [-> ->]. auto. }
  destruct Hfour as [-> ->].
  replace (Some (JS.truthy_flag (Some network_disabled)))
    with (C.disablePublicNetwork c)
    by (rewrite Hdisabled; destruct network_disabled; reflexivity).
  rewrite <- Hnetworks, <- Hfirewalls, <- Hlabels, <- Hdata.
  destruct c. reflexivity.
Qed.

Lemma round_trip_fields (w : state) :
  isValid w = true ->
  serverConfiguration (round_trip w) = fromProps (toProps (serverConfiguration w))
  /\ props_value (round_trip w) = toProps (serverConfiguration w).
Proof.
  intros Hvalid. unfold round_trip, updateValue. rewrite Hvalid.
  unfold propsWatcher. split; reflexivity.
Qed.

(** C1, amended. For a valid state, whose validity the component has
    recorded, outbound sync followed by inbound sync leaves
    [userDataFromFile = true] in the record and re-derives the
    configuration as follows. Instance type, location, image, placement
    group, ssh key and [usePrivateNetwork] come back as they were. The
    user data comes back as it was, or as the empty string when it was
    unset; each id list as it was, or as the empty list when it was unset.
    [disablePublicNetwork] comes back [true] when it was [true] and [false]
    otherwise; each protocol flag comes back [false] when
    [disablePublicNetwork] was [true] and as it was otherwise. The labels
    come back as they were, or as the empty mapping when they were unset,
    provided that no key contains [=] and every value is a string that
    contains no [=]. Hence every field comes back as it was when the user
    data, the two id lists, the labels and [disablePublicNetwork] are set,
    the protocol flags are [false] whenever [disablePublicNetwork] is
    [true], and the labels meet that proviso. *)
Theorem round_trip_restores_state (w : state) :
  let c := serverConfiguration w in
  let c' := serverConfiguration (round_trip w) in
  validate c = true ->
  isValid w = validate c ->
  V.userDataFromFile (props_value (round_trip w)) = Some true
  /\ C.serverType c' = C.serverType c
  /\ C.serverLocation c' = C.serverLocation c
  /\ C.serverImage c' = C.serverImage c
  /\ C.placementGroupId c' = C.placementGroupId c
  /\ C.sshKeyId c' = C.sshKeyId c
  /\ C.usePrivateNetwork c' = C.usePrivateNetwork c
  /\ C.additionalUserData c' = Some (default "" (C.additionalUserData c))
  /\ C.networkIds c' = Some (default [] (C.networkIds c))
  /\ C.firewallIds c' = Some (default [] (C.firewallIds c))
  /\ C.disablePublicNetwork c'
     = Some (JS.truthy_flag (C.disablePublicNetwork c))
  /\ C.disablePublicIpv4 c'
     = (if JS.truthy_flag (C.disablePublicNetwork c) then Some false
        else C.disablePublicIpv4 c)
  /\ C.disablePublicIpv6 c'
     = (if JS.truthy_flag (C.disablePublicNetwork c) then Some false
        else C.disablePublicIpv6 c)
  /\ (map_Forall plain_label (default ∅ (C.serverLabels c)) ->
      C.serverLabels c' = Some (default ∅ (C.serverLabels c)))
  /\ (is_Some (C.additionalUserData c) ->
      is_Some (C.networkIds c) ->
      is_Some (C.firewallIds c) ->
      is_Some (C.serverLabels c) ->
      is_Some (C.disablePublicNetwork c) ->
      map_Forall plain_label (default ∅ (C.serverLabels c)) ->
      (C.disablePublicNetwork c = Some true ->
         C.disablePublicIpv4 c = Some false
         /\ C.disablePublicIpv6 c = Some false) ->
      c' = c).
Proof.
  intros c c' Hvalid Hsignal. rewrite Hvalid in Hsignal.
  destruct (round_trip_fields w Hsignal) as [Hc' Hrecord].
  subst c'. rewrite Hc', Hrecord. fold c.
  split; [reflexivity|].
  unfold fromProps at 1 2 3 4 5 6 7 8 9 10 11 12 13.
  cbn [C.serverType C.serverLocation C.serverImage C.placementGroupId
       C.sshKeyId C.usePrivateNetwork C.additionalUserData C.networkIds
       C.firewallIds C.disablePublicNetwork C.disablePublicIpv4
       C.disablePublicIpv6 C.serverLabels].
  unfold toProps at 1 2 3 4 5 6 7 8 9 10 11 12 13.
  cbn [V.serverType V.serverLocation V.imageId V.placementGroup V.networks
       V.firewalls V.existingKeyId V.usePrivateNetwork V.disablePublic
       V.disablePublicIpv4 V.disablePublicIpv6 V.additionalUserData
       V.serverLabel].
  rewrite !decode_number_round_trip, decode_key_round_trip,
    !decode_string_round_trip.
  repeat (split; [reflexivity|]).
  split; [destruct (C.additionalUserData c) as [data|];
          [rewrite or_empty_id|]; reflexivity|].
  split; [destruct (C.networkIds c) as [ids|];
          [rewrite decode_ids_round_trip|]; reflexivity|].
  split; [destruct (C.firewallIds c) as [ids|];
          [rewrite decode_ids_round_trip|]; reflexivity|].
  repeat (split; [reflexivity|]).
  split.
  - intros Hplain. destruct (C.serverLabels c) as [labels|].
    + rewrite (labels_round_trip labels Hplain). reflexivity.
    + reflexivity.
  - intros [data Hdata] [networks Hnetworks] [firewalls Hfirewalls]
      [labels Hlabels] [network_disabled Hdisabled] Hplain Hflags.
    rewrite Hlabels in Hplain.
    apply (fromProps_toProps_fixed c data networks firewalls labels
             network_disabled); try assumption.
    intros ->. apply Hflags. exact Hdisabled.
Qed.

Lemma round_trip_restores_state_witness :
  validate Sample.plain = true
  /\ serverConfiguration (round_trip (Sample.holding Sample.plain)) = Sample.plain
  /\ V.userDataFromFile (props_value (round_trip (Sample.holding Sample.plain)))
     = Some true.
Proof.
  split; [reflexivity|].
  destruct (round_trip_restores_state (Sample.holding Sample.plain)
              eq_refl eq_refl)
    as (Hfile & _ & _ & _ & _ & _ & _ & _ & _ & _ & _ & _ & _ & _ & Hall).
  split; [|exact Hfile].
  apply Hall; try (eexists; reflexivity).
  - apply map_Forall_singleton. split; [reflexivity|].
    exists "worker". split; reflexivity.
  - discriminate.
Defined.

End RoundTrip.

(** ** Dependent re-aggregation *)

Section LocationChange.
Import Transport Reconciler.

Lemma is_selected_In selected opts :
  existsb (is_selected (Some selected)) opts = true
  <-> In (VStr selected) (map value opts).
Proof.
  rewrite existsb_exists, in_map_iff. unfold is_selected.
  split.
  - intros (o & Hin & Hsel). exists o.
    destruct (value o) as [v|n]; [|discriminate].
    apply String.eqb_eq in Hsel. subst v. auto.
  - intros (o & Hvalue & Hin). exists o.
    rewrite Hvalue. split; [exact Hin | apply String.eqb_refl].
Qed.

(** What the watcher does once the refreshed list is there, whatever
    happened to the state while the request was under way. *)
Lemma locationWatcher_resumed_spec opts w :
  let c := serverConfiguration w in
  let w' := locationWatcher_resumed (Return opts) w in
  o_serverTypes (hetznerOptions w') = opts
  /\ loadingData w' = false
  /\ (forall selected, C.serverType c = Some selected ->
        In (VStr selected) (map value opts) ->
        serverConfiguration w' = c)
  /\ ((forall selected, C.serverType c = Some selected ->
         ~ In (VStr selected) (map value opts)) ->
      serverConfiguration w' = C.with_serverType None c).
Proof.
  intros c w'. subst c w'. unfold locationWatcher_resumed.
  cbn [with_hetznerOptions hetznerOptions serverConfiguration
       with_o_serverTypes o_serverTypes].
  destruct (C.serverType (serverConfiguration w)) as [selected|] eqn:Hsel.
  - destruct (existsb (is_selected (Some selected)) opts) eqn:Hfound; simpl.
    + repeat split; auto.
      intros Habsent. exfalso. apply (Habsent selected eq_refl).
      apply is_selected_In. exact Hfound.
    + repeat split; auto.
      intros s [= <-] Hin. apply is_selected_In in Hin. congruence.
  - assert (Hnone : existsb (is_selected None) opts = false)
      by (induction opts; simpl; auto).
    rewrite Hnone. simpl. repeat split; auto. intros s [=].
Qed.

(** C5, as stated, fails: the watcher only acts when a client exists.
    Without one a change of location refetches nothing and keeps a
    selection that the new location does not offer. *)
Lemma location_change_without_client :
  hcloud (Sample.holding Sample.moved) = None
  /\ HetznerCloud.getServerTypes (host := Sample.host) 2 Sample.catalogue
       (C.serverLocation Sample.moved)
     = Some (Return Sample.hel1_types)
  /\ ~ In (VStr "cx22") (map value Sample.hel1_types)
  /\ locationChanged (H := Sample.host) 2 Sample.catalogue
       (Sample.holding Sample.moved)
     = Some (Sample.holding Sample.moved)
  /\ C.serverType (serverConfiguration (Sample.holding Sample.moved))
     = Some "cx22"
  /\ o_serverTypes (hetznerOptions (Sample.holding Sample.moved)) = [].
Proof.
  split; [reflexivity|]. split; [vm_compute; reflexivity|].
  split; [simpl; intuition discriminate|].
  repeat split.
Qed.

(** C5, amended. Once the component has a client, a change of location
    refetches the instance types for the new location, stores the result,
    and keeps the selected type exactly when its value occurs among the
    values of the refreshed options; otherwise, and in particular when
    the list is empty, the selection becomes unset. *)
Theorem location_change_refreshes_types `{Host} (fuel : nat) (api : Api)
    (w : state) (client : string) (opts : list HetznerOption) :
  let c := serverConfiguration w in
  hcloud w = Some client ->
  HetznerCloud.getServerTypes fuel api (C.serverLocation c) = Some (Return opts) ->
  exists w',
    locationChanged fuel api w = Some w'
    /\ o_serverTypes (hetznerOptions w') = opts
    /\ loadingData w' = false
    /\ (forall selected, C.serverType c = Some selected ->
          In (VStr selected) (map value opts) ->
          serverConfiguration w' = c)
    /\ ((forall selected, C.serverType c = Some selected ->
           ~ In (VStr selected) (map value opts)) ->
        serverConfiguration w' = C.with_serverType None c).
Proof.
  intros c Hclient Hfetch. unfold locationChanged. rewrite Hclient.
  fold c. rewrite Hfetch. eexists. split; [reflexivity|].
  pose proof (locationWatcher_resumed_spec opts (locationWatcher w)) as Hspec.
  unfold locationWatcher in *. rewrite Hclient in *. exact Hspec.
Qed.

Lemma location_change_refreshes_types_witness :
  exists w',
    locationChanged (H := Sample.host) 2 Sample.catalogue
      (Sample.connected Sample.moved) = Some w'
    /\ o_serverTypes (hetznerOptions w') = Sample.hel1_types
    /\ C.serverType (serverConfiguration w') = None.
Proof.
  destruct (location_change_refreshes_types (H := Sample.host) 2
              Sample.catalogue (Sample.connected Sample.moved)
              "credential" Sample.hel1_types)
    as (w' & Hstep & Hopts & _ & _ & Hcleared).
  - reflexivity.
  - vm_compute. reflexivity.
  - exists w'. split; [exact Hstep|]. split; [exact Hopts|].
    rewrite Hcleared; [reflexivity|].
    intros selected [= <-]. simpl. intuition discriminate.
Defined.

End LocationChange.


(** * Further properties of the client and of the component *)

(** ** The paged operations *)

Section PagedOperations.
Import Transport HetznerCloud.

Lemma fetchKind_serves {A} (transform : list A -> list HetznerOption)
    fuel (transport : nat -> Outcome A) pages :
  serves transport pages ->
  pages <> [] ->
  (length pages <= fuel)%nat ->
  fetchKind transform fuel transport
  = Some (Return (transform (concat (until_empty pages)))).
Proof.
  intros Hserves Hne Hfuel. unfold fetchKind.
  rewrite (proj1 (fetchPages_exhaustive transport pages fuel Hserves Hne Hfuel)).
  reflexivity.
Qed.

(** X1. For every resource kind, when the path serves a list of pages and
    reports their number as [last_page], the operation returns its
    transform of the concatenation, in page order, of the pages up to and
    including the first empty one. *)
Theorem paged_fetch_returns_all_pages `{Host} (k : Kind) (fuel : nat)
    (api : Api) :
  for_kind
    (fun A transport transform =>
       forall pages : list (list A),
         serves transport pages ->
         pages <> [] ->
         (length pages <= fuel)%nat ->
         fetch k fuel api
         = Some (Return (transform (concat (until_empty pages)))))
    k api.
Proof.
  destruct k; simpl; intros pages Hserves Hne Hfuel;
    apply fetchKind_serves; assumption.
Qed.

Lemma serves_paged {A} (pages : list (list A)) : serves (Sample.paged pages) pages.
Proof.
  intros i page Hpage. exists 200%nat, "OK". split; [reflexivity|].
  simpl. rewrite Hpage. reflexivity.
Qed.

Lemma paged_fetch_returns_all_pages_witness :
  fetch (H := Sample.host) Locations 2 Sample.catalogue
  = Some (Return (locationOptions (host := Sample.host)
                    (concat (until_empty [[Sample.fsn1]; [Sample.hel1]])))).
Proof.
  pose proof (paged_fetch_returns_all_pages (H := Sample.host) Locations 2
                Sample.catalogue) as Hall.
  simpl in Hall. apply Hall.
  - apply serves_paged.
  - discriminate.
  - simpl. lia.
Defined.

Lemma fetchPages_settles {A} (transport : nat -> Outcome A) bound :
  last_page_within transport bound ->
  forall fuel page acc,
    (1 <= fuel)%nat ->
    (bound + 1 - page <= fuel)%nat ->
    fetchPages fuel transport page acc <> None.
Proof.
  intros Hbound. induction fuel as [|fuel IH]; intros page acc H1 Hfuel; [lia|].
  cbn [fetchPages].
  destruct (request transport page) as [response|err] eqn:Hrequest;
    [|discriminate].
  destruct (more_pages response (S page)) eqn:Hmore; [|discriminate].
  unfold more_pages in Hmore.
  destruct (items response) as [[|item found]|]; try discriminate.
  destruct (last_page response) as [last|] eqn:Hlast; [|discriminate].
  apply Nat.leb_le in Hmore.
  pose proof (Hbound page response last Hrequest Hlast) as Hle.
  apply IH; lia.
Qed.

(** X2. For every resource kind, when no response of the path reports a
    [last_page] above a bound, the loop ends within [max 1 bound] requests
    and the operation returns a list. *)
Theorem paged_fetch_settles `{Host} (k : Kind) (fuel bound : nat) (api : Api) :
  for_kind
    (fun A transport transform =>
       last_page_within transport bound ->
       (Nat.max 1 bound <= fuel)%nat ->
       exists opts, fetch k fuel api = Some (Return opts))
    k api.
Proof.
  assert (Hany : forall A (transform : list A -> list HetznerOption) transport,
             last_page_within transport bound ->
             (Nat.max 1 bound <= fuel)%nat ->
             exists opts, fetchKind transform fuel transport = Some (Return opts)).
  { intros A transform transport Hbound Hfuel.
    pose proof (fetchPages_settles transport bound Hbound fuel 1%nat []
                  ltac:(lia) ltac:(lia)) as Hsettles.
    unfold fetchKind.
    destruct (fetchPages fuel transport 1 []) as [[found|err]|];
      [eexists; reflexivity | eexists; reflexivity | contradiction]. }
  destruct k; simpl; apply Hany.
Qed.

Lemma last_page_within_paged {A} (pages : list (list A)) :
  last_page_within (Sample.paged pages) (length pages).
Proof.
  intros page response last Hrequest Hlast.
  unfold request, Sample.paged in Hrequest.
  destruct page as [|i]; [discriminate|].
  destruct (pages !! i); [|discriminate].
  simpl in Hrequest. injection Hrequest as <-. simpl in Hlast.
  injection Hlast as <-. lia.
Qed.

Lemma paged_fetch_settles_witness :
  exists opts,
    fetch (H := Sample.host) (ServerTypes (Some "hel1")) 2 Sample.catalogue
    = Some (Return opts).
Proof.
  pose proof (paged_fetch_settles (H := Sample.host) (ServerTypes (Some "hel1"))
                2 2 Sample.catalogue) as Hsettles.
  simpl in Hsettles. apply Hsettles.
  - apply (last_page_within_paged [[Sample.cx22; Sample.ccx13]; [Sample.cax11]]).
  - simpl. lia.
Defined.

(** X3. For every resource kind, a first response that lacks
    [meta.pagination.last_page], or whose item array is missing or empty,
    ends the loop: the operation returns its transform of the items of
    that response and requests no further page. *)
Theorem first_page_only `{Host} (k : Kind) (fuel : nat) (api : Api) :
  for_kind
    (fun A transport transform =>
       forall response,
         request transport 1 = Return response ->
         last_page response = None \/ default [] (items response) = [] ->
         (1 <= fuel)%nat ->
         fetch k fuel api
         = Some (Return (transform (default [] (items response)))))
    k api.
Proof.
  assert (Hany : forall A (transform : list A -> list HetznerOption) transport
                        response,
             request transport 1 = Return response ->
             last_page response = None \/ default [] (items response) = [] ->
             (1 <= fuel)%nat ->
             fetchKind transform fuel transport
             = Some (Return (transform (default [] (items response))))).
  { intros A transform transport response Hrequest Hstop Hfuel.
    destruct fuel as [|fuel]; [lia|].
    unfold fetchKind. cbn [fetchPages]. rewrite Hrequest.
    assert (Hmore : more_pages response 2 = false).
    { unfold more_pages. destruct Hstop as [Hnone|Hempty].
      - rewrite Hnone. destruct (items response) as [[|? ?]|]; reflexivity.
      - destruct (items response) as [[|? ?]|]; try reflexivity.
        discriminate. }
    rewrite Hmore. reflexivity. }
  destruct k; simpl; apply Hany.
Qed.

Lemma first_page_only_witness :
  fetch (H := Sample.host) Networks 1 Sample.small = Some (Return []).
Proof.
  pose proof (first_page_only (H := Sample.host) Networks 1 Sample.small)
    as Hfirst.
  simpl in Hfirst.
  apply (Hfirst {| items := Some []; last_page := Some 1%nat |}).
  - reflexivity.
  - right. reflexivity.
  - lia.
Defined.

Lemma fetchKind_once {A} (transform transform' : list A -> list HetznerOption)
    fuel (transport : nat -> Outcome A) :
  (forall found, transform found = transform' found) ->
  transform' [] = [] ->
  first_is_last transport ->
  fetchKind transform (S fuel) transport
  = Some (HetznerCloudSinglePage.once transform' transport).
Proof.
  intros Hsame Hnil Hlast. unfold fetchKind, HetznerCloudSinglePage.once.
  cbn [fetchPages].
  destruct (request transport 1) as [response|err] eqn:Hrequest; [|reflexivity].
  rewrite (Hlast response Hrequest). simpl. rewrite Hsame.
  destruct (items response); simpl; [reflexivity|].
  rewrite Hnil. reflexivity.
Qed.

Lemma guarded_map {A} (f : list A -> list HetznerOption) (found : list A) :
  f [] = [] ->
  (if Nat.eqb (length found) 0 then [] else f found) = f found.
Proof. intros Hnil. destruct found; [symmetry; exact Hnil | reflexivity]. Qed.

(** X7. For every resource kind, when the first response of the path ends
    the loop of the paged client (or the first request fails), and the
    value under the item key of that response is either missing or an array
    of items of the declared interface, which is all that a [Page] can
    hold, the paged client and the single-request copy of the client return
    the same list. *)
Theorem copies_agree_on_one_page `{Host} (k : Kind) (fuel : nat) (api : Api) :
  (1 <= fuel)%nat ->
  for_kind (fun A transport transform => first_is_last transport) k api ->
  fetch k fuel api = Some (HetznerCloudSinglePage.fetch k api).
Proof.
  intros Hfuel Hlast. destruct fuel as [|fuel]; [lia|].
  destruct k as [|location| | | | |]; simpl in Hlast |- *.
  - apply (fetchKind_once locationOptions
             (fun found => map locationOption (Array_sort compareLocations found)));
      [intros found; apply (guarded_map (fun l => map locationOption
                                                  (Array_sort compareLocations l)))
      | | assumption]; reflexivity.
  - apply (fetchKind_once (serverTypeOptions location)
             (HetznerCloudSinglePage.serverTypeOptions location));
      [intros found; apply (guarded_map
                              (HetznerCloudSinglePage.serverTypeOptions location))
      | | assumption].
    + unfold HetznerCloudSinglePage.serverTypeOptions, dedicatedTypes, sharedTypes.
      rewrite keptServerTypes_nil. reflexivity.
    + unfold HetznerCloudSinglePage.serverTypeOptions, dedicatedTypes, sharedTypes.
      rewrite keptServerTypes_nil. reflexivity.
  - apply (fetchKind_once imageOptions
             (fun found => map imageOption (Array_sort compareImages found)));
      [intros found; reflexivity | reflexivity | assumption].
  - apply (fetchKind_once namedOptions (map namedOption));
      [intros found; apply (guarded_map (map namedOption)); reflexivity
      | reflexivity | assumption].
  - apply (fetchKind_once networkOptions (map networkOption));
      [intros found; apply (guarded_map (map networkOption)); reflexivity
      | reflexivity | assumption].
  - apply (fetchKind_once namedOptions (map namedOption));
      [intros found; apply (guarded_map (map namedOption)); reflexivity
      | reflexivity | assumption].
  - apply (fetchKind_once namedOptions (map namedOption));
      [intros found; apply (guarded_map (map namedOption)); reflexivity
      | reflexivity | assumption].
Qed.

Lemma first_is_last_paged {A} (page : list A) : first_is_last (Sample.paged [page]).
Proof.
  intros response Hrequest. unfold request in Hrequest. simpl in Hrequest.
  injection Hrequest as <-. unfold more_pages. simpl.
  destruct page; reflexivity.
Qed.

Lemma copies_agree_on_one_page_witness :
  fetch (H := Sample.host) Locations 1 Sample.small
  = Some (HetznerCloudSinglePage.fetch (host := Sample.host) Locations Sample.small).
Proof.
  apply (copies_agree_on_one_page (H := Sample.host) Locations 1 Sample.small).
  - lia.
  - simpl. apply first_is_last_paged.
Defined.

End PagedOperations.

(** ** Order and content of the lists *)

Section ListContents.
Import Transport HetznerCloud.
Context `{host : Host}.

Lemma StronglySorted_weaken {A} (R R' : A -> A -> Prop) l :
  (forall a b, R a b -> R' a b) ->
  StronglySorted R l -> StronglySorted R' l.
Proof.
  intros Hweaken. induction 1 as [|x l _ IH Hx]; constructor; [exact IH|].
  eapply List.Forall_impl; [|exact Hx]. intros b. apply Hweaken.
Qed.

Lemma compareLocations_antisym {laws : HostLaws host} a b :
  compareLocations b a = CompOpp (compareLocations a b).
Proof.
  unfold compareLocations. rewrite String.eqb_sym.
  destruct (negb _); apply localeCompare_antisym.
Qed.

Lemma localeCompare_both {laws : HostLaws host} a b :
  localeCompare a b <> Gt -> localeCompare b a <> Gt -> localeCompare a b = Eq.
Proof.
  intros Hab Hba. rewrite (localeCompare_antisym a b) in Hba.
  destruct (localeCompare a b); simpl in *; congruence.
Qed.

Lemma compareLocations_trans {laws : HostLaws host} a b c :
  (forall x y, localeCompare x y = Eq -> x = y) ->
  compareLocations a b <> Gt -> compareLocations b c <> Gt ->
  compareLocations a c <> Gt.
Proof.
  intros Hsep. unfold compareLocations.
  destruct (String.eqb_spec (LocationResponse.network_zone a)
                            (LocationResponse.network_zone b)) as [Hab|Hab],
    (String.eqb_spec (LocationResponse.network_zone b)
                     (LocationResponse.network_zone c)) as [Hbc|Hbc],
    (String.eqb_spec (LocationResponse.network_zone a)
                     (LocationResponse.network_zone c)) as [Hac|Hac];
    simpl; try congruence.
  - apply localeCompare_trans.
  - intros H1 H2. exfalso. apply Hab. apply Hsep.
    apply localeCompare_both; [exact H1 | rewrite Hac; exact H2].
  - apply localeCompare_trans.
Qed.

Lemma compareLocations_order a b :
  (forall x y, localeCompare x y = Eq -> x = y) ->
  compareLocations a b <> Gt -> by_zone_then_name a b.
Proof.
  intros Hsep. unfold compareLocations, by_zone_then_name.
  destruct (String.eqb_spec (LocationResponse.network_zone a)
                            (LocationResponse.network_zone b)) as [Hab|Hab];
    simpl; intros Hle; [right; auto|].
  left. destruct (localeCompare _ _) eqn:Hzones; try congruence.
  exfalso. apply Hab, Hsep, Hzones.
Qed.

(** X4. With a collation that is a total order on strings, the result of
    [getLocations] has one option per fetched location, in the order of
    network zone and, within a zone, of name. *)
Theorem locations_sorted_by_zone_then_name {laws : HostLaws host}
    (fuel : nat) (api : Api) (opts : list HetznerOption) :
  (forall x y, localeCompare x y = Eq -> x = y) ->
  getLocations fuel api = Some (Return opts) ->
  exists sorted,
    opts = map locationOption sorted
    /\ Permutation sorted (accumulated fuel (locations api))
    /\ StronglySorted by_zone_then_name sorted.
Proof.
  intros Hsep Hfetch. apply fetchKind_result in Hfetch; [|reflexivity].
  exists (Array_sort compareLocations (accumulated fuel (locations api))).
  split; [|split].
  - subst opts. unfold locationOptions.
    apply (guarded_map (fun l => map locationOption
                                   (Array_sort compareLocations l))).
    reflexivity.
  - apply Array_sort_perm.
  - eapply StronglySorted_weaken;
      [intros a b; apply (compareLocations_order a b Hsep)|].
    apply (Array_sort_sorted compareLocations).
    + intros a b. apply compareLocations_antisym.
    + intros a b c. apply compareLocations_trans. exact Hsep.
Qed.

(** X5. For images of the declared interface (every name a string), the
    result of [getImages] has one option per fetched image, in the order
    of the image names. *)
Theorem images_sorted_by_name {laws : HostLaws host}
    (fuel : nat) (api : Api) (opts : list HetznerOption) :
  getImages fuel api = Some (Return opts) ->
  exists sorted,
    opts = map imageOption sorted
    /\ Permutation sorted (accumulated fuel (images api))
    /\ StronglySorted by_image_name sorted.
Proof.
  intros Hfetch. apply fetchKind_result in Hfetch; [|reflexivity].
  exists (Array_sort compareImages (accumulated fuel (images api))).
  split; [exact Hfetch|]. split; [apply Array_sort_perm|].
  apply (Array_sort_sorted compareImages).
  - intros a b. apply localeCompare_antisym.
  - intros a b c. apply localeCompare_trans.
Qed.

Lemma priced_in_priced loc type : priced_in loc type = true <-> priced loc type.
Proof.
  unfold priced_in, priced. rewrite existsb_exists.
  split; intros (price & H1 & H2); exists price.
  - apply String.eqb_eq in H2. auto.
  - split; [exact H1 | apply String.eqb_eq; exact H2].
Qed.

Lemma kept_In_offered location items type :
  In type (keptServerTypes location items)
  <-> In type items /\ offered location type.
Proof.
  unfold keptServerTypes, offered.
  destruct location as [[|c loc]|]; cbn [JS.truthy_opt JS.truthy_string];
    rewrite ?filter_In, ?negb_true_iff.
  - split; [intros [Hin Hdep]|intros [Hin [Hdep _]]]; repeat split; auto.
    intros loc [= <-] Hne. contradiction.
  - cbn [default from_option]. unfold id. rewrite priced_in_priced.
    split.
    + intros [[Hin Hdep] Hpriced]. repeat split; auto.
      intros loc' [= <-] _. exact Hpriced.
    + intros [Hin [Hdep Hpriced]]. repeat split; auto.
  - split; [intros [Hin Hdep]|intros [Hin [Hdep _]]]; repeat split; auto.
    intros loc [=].
Qed.

Lemma classes_In location items type :
  In type (dedicatedTypes location items ++ sharedTypes location items)
  <-> In type (keptServerTypes location items).
Proof.
  split; apply Permutation_in; [|symmetry]; apply classes_partition.
Qed.

(** X6. In a result of [getServerTypes] the options that are not headers
    are exactly the formatted fetched types that are not deprecated and,
    when a location is given, have a price for it. *)
Theorem offered_types_are_listed (fuel : nat) (api : Api)
    (location : option string) (opts : list HetznerOption) :
  getServerTypes fuel api location = Some (Return opts) ->
  forall o,
    In o opts /\ ~ is_header o
    <-> exists type,
          In type (accumulated fuel (server_types api))
          /\ offered location type
          /\ o = formatServerType location type.
Proof.
  intros Hfetch o.
  apply (fetchKind_result _ _ _ _ (serverTypeOptions_nil location)) in Hfetch.
  subst opts. rewrite serverTypeOptions_shape. cbv zeta.
  set (items := accumulated fuel (server_types api)).
  assert (Hlisted : (exists type, In type items /\ offered location type
                                  /\ o = formatServerType location type)
                    <-> In o (map (formatServerType location)
                                (dedicatedTypes location items
                                 ++ sharedTypes location items))).
  { rewrite in_map_iff. split.
    - intros (type & Hin & Hoff & ->). exists type. split; [reflexivity|].
      apply classes_In, kept_In_offered. auto.
    - intros (type & <- & Hin). exists type.
      apply classes_In, kept_In_offered in Hin. tauto. }
  rewrite Hlisted, map_app, !in_app_iff.
  assert (Hformatted : forall types,
             In o (map (formatServerType location) types) -> ~ is_header o).
  { intros types Hin.
    pose proof (formatted_not_header location types) as Hall.
    rewrite List.Forall_forall in Hall. apply Hall. exact Hin. }
  split.
  - intros [[Hhead|[Hded|[Hhead|Hsh]]] Hnot]; auto.
    + destruct (nonempty _); [|contradiction].
      destruct Hhead as [<-|[]]. exfalso. apply Hnot. reflexivity.
    + destruct (_ && _)%bool; [|contradiction].
      destruct Hhead as [<-|[]]. exfalso. apply Hnot. reflexivity.
  - intros [Hded|Hsh]; split; eauto.
Qed.

End ListContents.

Section ListContentsSamples.
Import Transport HetznerCloud.

Lemma locations_sorted_by_zone_then_name_witness :
  exists sorted,
    [Sample.fsn1_option; Sample.hel1_option]
    = map locationOption sorted
    /\ Permutation sorted (accumulated 1 (locations Sample.small))
    /\ StronglySorted (by_zone_then_name (H := Sample.host)) sorted.
Proof.
  apply (locations_sorted_by_zone_then_name (host := Sample.host)
           (laws := sample_host_laws) 1 Sample.small).
  - intros x y. apply String.compare_eq_iff.
  - vm_compute. reflexivity.
Defined.

Lemma images_sorted_by_name_witness :
  exists sorted,
    [imageOption Sample.debian; imageOption Sample.ubuntu]
    = map imageOption sorted
    /\ Permutation sorted (accumulated 1 (images Sample.stocked))
    /\ StronglySorted (by_image_name (H := Sample.host)) sorted.
Proof.
  apply (images_sorted_by_name (host := Sample.host) (laws := sample_host_laws)
           1 Sample.stocked).
  vm_compute. reflexivity.
Defined.

Lemma offered_types_are_listed_witness :
  In (formatServerType (host := Sample.host) (Some "fsn1") Sample.cx22)
     Sample.fsn1_types
  /\ ~ In (formatServerType (host := Sample.host) (Some "fsn1") Sample.cax11)
          Sample.fsn1_types.
Proof.
  pose proof (offered_types_are_listed (host := Sample.host) 2 Sample.catalogue
                (Some "fsn1") Sample.fsn1_types) as Hlisted.
  assert (Hfetch : getServerTypes (host := Sample.host) 2 Sample.catalogue
                     (Some "fsn1") = Some (Return Sample.fsn1_types))
    by (vm_compute; reflexivity).
  specialize (Hlisted Hfetch). split.
  - apply Hlisted. exists Sample.cx22. split; [|split; [|reflexivity]].
    + vm_compute. auto.
    + split; [reflexivity|]. intros loc [= <-] _.
      eexists. split; [left; reflexivity | reflexivity].
  - intros Hin.
    assert (Hnot : ~ is_header (formatServerType (host := Sample.host)
                                  (Some "fsn1") Sample.cax11))
      by (unfold is_header; simpl; discriminate).
    destruct (proj1 (Hlisted _) (conj Hin Hnot))
      as (type & _ & [_ Hpriced] & Hsame).
    vm_compute in Hin. intuition discriminate.
Defined.

End ListContentsSamples.

(** ** Sync between the configuration and the host record *)

Section Sync.
Import Reconciler.

(** X8. A round trip through the host record never changes the verdict of
    the validity test, for any configuration. *)
Theorem round_trip_keeps_validity (c : ServerConfiguration.t) :
  validate (normalize c) = validate c.
Proof.
  unfold normalize, validate, fromProps, toProps.
  cbn [C.serverImage C.serverType C.serverLocation C.disablePublicNetwork
       C.disablePublicIpv4 C.disablePublicIpv6 C.usePrivateNetwork C.networkIds
       V.imageId V.serverType V.serverLocation V.disablePublic
       V.disablePublicIpv4 V.disablePublicIpv6 V.usePrivateNetwork V.networks].
  rewrite decode_number_round_trip, !decode_string_round_trip.
  destruct (C.networkIds c) as [[|id ids]|];
    destruct (C.disablePublicNetwork c) as [[|]|],
      (C.disablePublicIpv4 c) as [[|]|],
      (C.disablePublicIpv6 c) as [[|]|],
      (C.usePrivateNetwork c) as [[|]|]; reflexivity.
Qed.

Lemma has_char_append c a b :
  has_char c (a ++ b)%string = (has_char c a || has_char c b)%bool.
Proof.
  induction a as [|d a IH]; [reflexivity|].
  rewrite append_cons. simpl. rewrite IH. apply orb_assoc.
Qed.

Lemma split_head sep s :
  exists piece rest, JS.split sep s = piece :: rest /\ has_char sep piece = false.
Proof.
  induction s as [|c s (piece & rest & IH & Hpiece)]; simpl.
  - exists "", []. auto.
  - destruct (Ascii.eqb c sep) eqn:Hc.
    + exists "", (JS.split sep s). auto.
    + rewrite IH. exists (String c piece), rest. simpl. rewrite Hc. auto.
Qed.

(** Splitting a string that contains the separator gives at least two
    pieces, and no piece contains the separator. *)
Lemma split_two sep s :
  has_char sep s = true ->
  exists first second rest,
    JS.split sep s = first :: second :: rest
    /\ has_char sep first = false /\ has_char sep second = false.
Proof.
  induction s as [|c s IH]; simpl; [discriminate|].
  destruct (Ascii.eqb c sep) eqn:Hc; simpl.
  - intros _. destruct (split_head sep s) as (piece & rest & -> & Hpiece).
    exists "", piece, rest. auto.
  - intros Hs. destruct (IH Hs) as (first & second & rest & -> & H1 & H2).
    exists (String c first), second, rest. simpl. rewrite Hc. auto.
Qed.

Lemma fromEntries_keeps (P : string -> option string -> Prop)
    (es : list (list string)) :
  Forall (fun e => P (JS.entry_key e) (JS.entry_value e)) es ->
  forall o : gmap string (option string),
    map_Forall P o ->
    map_Forall P
      (foldl (fun o e => <[JS.entry_key e := JS.entry_value e]> o) o es).
Proof.
  induction 1 as [|e es He _ IH]; intros o Ho; [exact Ho|].
  simpl. apply IH. apply map_Forall_insert_2; assumption.
Qed.

(** Whatever the labels were, the labels decoded from their encoding are
    plain. *)
Lemma decoded_labels_plain (labels : option (gmap string (option string))) :
  map_Forall plain_label (decode_labels (label_strings labels)).
Proof.
  unfold decode_labels, JS.Object_fromEntries.
  apply fromEntries_keeps; [|apply map_Forall_empty].
  destruct labels as [labels|]; [|constructor].
  cbn [label_strings default from_option]. unfold id.
  apply List.Forall_forall. intros e He.
  apply in_map_iff in He. destruct He as (encoded & <- & He).
  apply in_map_iff in He. destruct He as ([key v] & <- & _).
  destruct (split_two "="%char (key ++ "=" ++ JS.interpolate v)%string)
    as (first & second & rest & -> & H1 & H2).
  - rewrite has_char_append. change ("=" ++ JS.interpolate v)%string
      with (String "="%char (JS.interpolate v)).
    simpl. apply orb_true_r.
  - split; [exact H1|]. exists second. auto.
Qed.

(** X9. One round trip through the host record normalises a
    configuration: a second round trip gives back every field of the
    result of the first, for any configuration. *)
Theorem second_round_trip_is_identity (c : ServerConfiguration.t) :
  normalize (normalize c) = normalize c.
Proof.
  unfold normalize at 1.
  apply (fromProps_toProps_fixed (normalize c)
           (or_empty (V.additionalUserData (toProps c)))
           (decode_ids (V.networks (toProps c)))
           (decode_ids (V.firewalls (toProps c)))
           (decode_labels (V.serverLabel (toProps c)))
           (JS.truthy_flag (C.disablePublicNetwork c))); try reflexivity.
  - apply decoded_labels_plain.
  - intros Hdisabled. unfold normalize, fromProps, toProps. simpl.
    rewrite Hdisabled. auto.
Qed.

Lemma step_effects e w :
  exists more,
    effects (step e w) = (effects w ++ more)%list /\ Forall wrote_valid more.
Proof.
  assert (Hnone : forall w', effects w' = effects w ->
                    exists more, effects w' = (effects w ++ more)%list
                                 /\ Forall wrote_valid more).
  { intros w' ->. exists []. split; [symmetry; apply app_nil_r | constructor]. }
  destruct e; simpl; try (apply Hnone; reflexivity).
  - apply Hnone. unfold propsWatcher. destruct (syncingToProps w); reflexivity.
  - unfold configurationWatcher. simpl.
    destruct (validate (serverConfiguration w)) eqn:Hvalid; simpl.
    + destruct (syncingFromProps w); simpl.
      * eexists. split; [reflexivity|]. repeat constructor. intros v [=].
      * unfold updateValue. simpl. eexists.
        split; [rewrite <- app_assoc; reflexivity|].
        repeat constructor; [intros v [=]|].
        intros v [= <-]. exists (serverConfiguration w). auto.
    + eexists. split; [reflexivity|]. repeat constructor. intros v [=].
  - apply Hnone. unfold locationWatcher. destruct (hcloud w); reflexivity.
  - unfold locationWatcher_resumed. destruct settled as [found|err]; simpl.
    + apply Hnone. destruct (negb _); reflexivity.
    + eexists. split; [reflexivity|]. repeat constructor. intros v [=].
Qed.

Lemma step_record e w :
  (forall v, e <> HostWrites v) ->
  props_value (step e w) = props_value w
  \/ exists c, validate c = true /\ props_value (step e w) = toProps c.
Proof.
  intros Hhost. destruct e; simpl; auto.
  - exfalso. apply (Hhost v). reflexivity.
  - left. unfold propsWatcher. destruct (syncingToProps w); reflexivity.
  - unfold configurationWatcher. simpl.
    destruct (validate (serverConfiguration w)) eqn:Hvalid; simpl; auto.
    destruct (syncingFromProps w); simpl; auto.
    right. exists (serverConfiguration w). auto.
  - left. unfold locationWatcher. destruct (hcloud w); reflexivity.
  - left. unfold locationWatcher_resumed. destruct settled; simpl; auto.
    destruct (negb _); reflexivity.
Qed.

(** X10. Whatever the component goes through, every outbound sync it
    performs writes the encoding of a configuration that passes the
    validity test; and as long as the host itself does not write, the host
    record is either untouched or such an encoding. *)
Theorem only_valid_configurations_are_written (es : list Event) (w : state) :
  (exists more,
     effects (run es w) = (effects w ++ more)%list /\ Forall wrote_valid more)
  /\ (Forall (fun e => forall v, e <> HostWrites v) es ->
      props_value (run es w) = props_value w
      \/ exists c, validate c = true /\ props_value (run es w) = toProps c).
Proof.
  split.
  - revert w. induction es as [|e es IH]; intros w.
    + exists []. split; [symmetry; apply app_nil_r | constructor].
    + destruct (step_effects e w) as (first & Hfirst & Hvalid).
      destruct (IH (step e w)) as (more & Hmore & Hvalid').
      exists (first ++ more)%list. split.
      * change (run (e :: es) w) with (run es (step e w)).
        rewrite Hmore, Hfirst. symmetry. apply app_assoc.
      * apply Forall_app_2; assumption.
  - intros Hes.
    assert (Hinv : forall w',
               props_value w' = props_value w
               \/ (exists c, validate c = true /\ props_value w' = toProps c) ->
               props_value (run es w') = props_value w
               \/ exists c, validate c = true
                            /\ props_value (run es w') = toProps c).
    { induction Hes as [|e es He _ IH]; intros w' Hw'; [exact Hw'|].
      change (run (e :: es) w') with (run es (step e w')). apply IH.
      destruct (step_record e w' He) as [Hsame|Hwritten]; [|auto].
      rewrite Hsame. exact Hw'. }
    apply Hinv. auto.
Qed.

Lemma only_valid_configurations_are_written_witness :
  props_value
    (run [UserEdits Sample.plain; ConfigurationWatcherRuns; UpdateValueResumes;
          UserEdits (C.with_serverType None Sample.plain);
          ConfigurationWatcherRuns]
         (Sample.holding Sample.moved))
  = props_value (Sample.holding Sample.moved)
  \/ exists c,
       validate c = true
       /\ props_value
            (run [UserEdits Sample.plain; ConfigurationWatcherRuns;
                  UpdateValueResumes;
                  UserEdits (C.with_serverType None Sample.plain);
                  ConfigurationWatcherRuns]
                 (Sample.holding Sample.moved))
          = toProps c.
Proof.
  apply (only_valid_configurations_are_written
           [UserEdits Sample.plain; ConfigurationWatcherRuns; UpdateValueResumes;
            UserEdits (C.with_serverType None Sample.plain);
            ConfigurationWatcherRuns]
           (Sample.holding Sample.moved)).
  repeat constructor; discriminate.
Defined.

(** X11. Outside an inbound sync, a user edit followed by validation
    reaches the host record exactly when the edited configuration is
    valid: then the record is its encoding and the outbound guard is up;
    otherwise the record is left as it was. In both cases [isValid] is the
    verdict on the edited configuration. *)
Theorem edit_reaches_record_iff_valid (w : state) (c : ServerConfiguration.t) :
  syncingFromProps w = false ->
  let w' := run [UserEdits c; ConfigurationWatcherRuns] w in
  isValid w' = validate c
  /\ (validate c = true ->
        props_value w' = toProps c /\ syncingToProps w' = true)
  /\ (validate c = false ->
        props_value w' = props_value w
        /\ syncingToProps w' = syncingToProps w).
Proof.
  intros Hguard w'. subst w'. simpl. unfold configurationWatcher. simpl.
  rewrite Hguard. destruct (validate c) eqn:Hvalid; simpl.
  - unfold updateValue. simpl. repeat split; auto; discriminate.
  - repeat split; auto; discriminate.
Qed.

Lemma edit_reaches_record_iff_valid_witness :
  props_value
    (run [UserEdits Sample.plain; ConfigurationWatcherRuns]
         (Sample.holding Sample.moved))
  = toProps Sample.plain.
Proof.
  apply (edit_reaches_record_iff_valid (Sample.holding Sample.moved) Sample.plain).
  - reflexivity.
  - reflexivity.
Defined.

End Sync.

(** ** Decoding the host record *)

Section Decoding.
Import Reconciler.

Lemma split_at sep a b :
  has_char sep a = false ->
  JS.split sep (a ++ String sep b)%string = a :: JS.split sep b.
Proof.
  induction a as [|c a IH]; intros Ha.
  - change ("" ++ String sep b)%string with (String sep b).
    simpl. rewrite Ascii.eqb_refl. reflexivity.
  - simpl in Ha. apply orb_false_elim in Ha. destruct Ha as [Hc Ha].
    rewrite append_cons. simpl. rewrite Hc, (IH Ha). reflexivity.
Qed.

(** X12. A label entry [key=value=rest] is decoded as [key] with the value
    [value]: what follows the second [=] is dropped. An entry without [=]
    is decoded as its whole text with an undefined value. *)
Theorem label_text_after_second_equals_is_dropped (key v rest : string) :
  has_char "="%char key = false ->
  has_char "="%char v = false ->
  decode_labels (Some [(key ++ "=" ++ v ++ "=" ++ rest)%string])
  = {[ key := Some v ]}
  /\ decode_labels (Some [key]) = {[ key := None ]}.
Proof.
  intros Hkey Hv. unfold decode_labels, JS.Object_fromEntries.
  pose proof (split_at "="%char key (v ++ String "="%char rest) Hkey) as Hfirst.
  rewrite (split_at _ _ _ Hv) in Hfirst.
  split; simpl.
  - change (key ++ "=" ++ v ++ "=" ++ rest)%string
      with (key ++ String "="%char (v ++ String "="%char rest))%string.
    rewrite Hfirst. apply insert_empty.
  - rewrite (split_plain _ _ Hkey). apply insert_empty.
Qed.

Lemma label_text_after_second_equals_is_dropped_witness :
  decode_labels (Some ["role=a=b"]) = {[ "role" := Some "a" ]}
  /\ decode_labels (Some ["role"]) = {[ "role" := None ]}.
Proof.
  apply (label_text_after_second_equals_is_dropped "role" "a" "b");
    reflexivity.
Defined.

(** X13. When several label entries have the same key, the last one
    decides its value, and it does not touch the other keys. *)
Theorem last_label_wins (labels : list string) (key v : string) :
  has_char "="%char key = false ->
  has_char "="%char v = false ->
  let decoded :=
    decode_labels (Some (labels ++ [(key ++ "=" ++ v)%string])%list) in
  decoded !! key = Some (Some v)
  /\ forall other, other <> key ->
      decoded !! other = decode_labels (Some labels) !! other.
Proof.
  intros Hkey Hv decoded. subst decoded.
  unfold decode_labels, JS.Object_fromEntries.
  cbn [default from_option]. unfold id.
  rewrite map_app, foldl_app. simpl.
  rewrite (split_key_value key v Hkey Hv).
  change (JS.entry_key [key; v]) with key.
  change (JS.entry_value [key; v]) with (Some v).
  split; [apply lookup_insert_eq|].
  intros other Hother. apply lookup_insert_ne. congruence.
Qed.

Lemma last_label_wins_witness :
  decode_labels (Some ["role=worker"; "zone=a"; "role=master"]) !! "role"
  = Some (Some "master").
Proof.
  apply (last_label_wins ["role=worker"; "zone=a"] "role" "master");
    reflexivity.
Defined.

Lemma decode_number_stringified x :
  decode_number (stringified x) = decode_number x.
Proof. destruct x as [| |n|s]; simpl; try reflexivity. rewrite Number_toString. reflexivity. Qed.

Lemma decode_key_stringified x : decode_key (stringified x) = decode_key x.
Proof. destruct x as [| |n|s]; simpl; try reflexivity. rewrite Number_toString. reflexivity. Qed.

Lemma decode_string_stringified x :
  decode_string (stringified x) = decode_string x.
Proof. destruct x; reflexivity. Qed.

Lemma decode_ids_stringified xs :
  decode_ids (map stringified_id <$> xs) = decode_ids xs.
Proof.
  destruct xs as [xs|]; [|reflexivity]. simpl.
  induction xs as [|[s|n] xs IH]; simpl; rewrite ?IH, ?Number_toString;
    reflexivity.
Qed.

(** X15. Inbound sync does not depend on whether the host record stores
    an id as a number or as its decimal string: writing every numeric id of
    the record as a string leaves the decoded configuration unchanged. *)
Theorem ids_decode_alike (v : Value.t) : fromProps (stringify v) = fromProps v.
Proof.
  unfold fromProps, stringify. cbn [V.serverType V.serverLocation V.imageId
    V.placementGroup V.networks V.firewalls V.existingKeyId
    V.usePrivateNetwork V.disablePublic V.disablePublicIpv4
    V.disablePublicIpv6 V.additionalUserData V.serverLabel].
  rewrite !decode_number_stringified, decode_key_stringified,
    !decode_string_stringified, !decode_ids_stringified.
  reflexivity.
Qed.

End Decoding.

Lemma ids_decode_alike_witness :
  Reconciler.fromProps (stringify Sample.numeric)
  = Reconciler.fromProps Sample.numeric.
Proof. apply (ids_decode_alike Sample.numeric). Defined.

(** ** The initial load *)

Section InitialLoad.
Import Transport Reconciler.
Context `{host : Host}.

Lemma fetchKind_settled {A} (transform : list A -> list HetznerOption)
    fuel (transport : nat -> Outcome A) :
  HetznerCloud.fetchKind transform fuel transport = None
  \/ exists opts,
       HetznerCloud.fetchKind transform fuel transport = Some (Return opts).
Proof.
  destruct (HetznerCloud.fetchKind transform fuel transport)
    as [[opts|err]|] eqn:Hfetch; eauto.
  exfalso. exact (fetchKind_never_throws _ _ _ _ Hfetch).
Qed.

(** X14. When [onMounted] has run to its end, both loading indicators are
    off and the configuration is untouched; no error notification has been
    dispatched, because no operation of the client rejects. Without a
    credential id nothing was requested: no client exists and the option
    lists are as before. With one, the client exists, each of the seven
    lists is what its operation returned (the instance types fetched
    without a location), and the warning is dispatched exactly when no
    location came back. *)
Theorem mounted_outcome (fuel : nat) (api : Api) (credentialId : string)
    (w w' : state) (notices : list Notice) :
  mounted fuel api credentialId w = Some (w', notices) ->
  loadingData w' = false
  /\ initialLoad w' = false
  /\ serverConfiguration w' = serverConfiguration w
  /\ (forall reason, ~ In (GrowlFailure reason) notices)
  /\ (credentialId = "" ->
        hcloud w' = hcloud w
        /\ hetznerOptions w' = hetznerOptions w
        /\ notices = [])
  /\ (credentialId <> "" ->
        let o := hetznerOptions w' in
        hcloud w' = Some credentialId
        /\ HetznerCloud.getLocations fuel api = Some (Return (o_locations o))
        /\ HetznerCloud.getServerTypes fuel api None
           = Some (Return (o_serverTypes o))
        /\ HetznerCloud.getImages fuel api = Some (Return (o_serverImages o))
        /\ HetznerCloud.getPlacementGroups fuel api
           = Some (Return (o_placementGroups o))
        /\ HetznerCloud.getNetworks fuel api = Some (Return (o_networks o))
        /\ HetznerCloud.getSshKeys fuel api = Some (Return (o_sshKeys o))
        /\ HetznerCloud.getFirewalls fuel api = Some (Return (o_firewalls o))
        /\ (o_locations o = [] ->
              notices
              = [GrowlWarning
                   "Unable to load Hetzner locations. Please check your API credentials."])
        /\ (o_locations o <> [] -> notices = [])).
Proof.
  unfold mounted, onMounted.
  destruct credentialId as [|c credentialId]; cbn [JS.truthy_string negb].
  - intros [= <- <-]. simpl.
    repeat (split; [solve [auto] |]). intros Hne. contradiction.
  - unfold loadAll, HetznerCloud.getLocations, HetznerCloud.getServerTypes,
      HetznerCloud.getImages, HetznerCloud.getPlacementGroups,
      HetznerCloud.getNetworks, HetznerCloud.getSshKeys,
      HetznerCloud.getFirewalls.
    destruct (fetchKind_settled HetznerCloud.locationOptions fuel
                (locations api)) as [->|[l1 ->]];
      destruct (fetchKind_settled (HetznerCloud.serverTypeOptions None) fuel
                  (server_types api)) as [->|[l2 ->]];
      destruct (fetchKind_settled HetznerCloud.imageOptions fuel (images api))
        as [->|[l3 ->]];
      destruct (fetchKind_settled HetznerCloud.namedOptions fuel
                  (placement_groups api)) as [->|[l4 ->]];
      destruct (fetchKind_settled HetznerCloud.networkOptions fuel
                  (networks api)) as [->|[l5 ->]];
      destruct (fetchKind_settled HetznerCloud.namedOptions fuel (ssh_keys api))
        as [->|[l6 ->]];
      destruct (fetchKind_settled HetznerCloud.namedOptions fuel (firewalls api))
        as [->|[l7 ->]];
      cbn [both]; try discriminate.
    intros [= <- <-]. cbn.
    split; [reflexivity|]. split; [reflexivity|]. split; [reflexivity|].
    split; [intros reason; destruct l1; simpl; intuition discriminate|].
    split; [discriminate|]. intros _.
    repeat (split; [reflexivity|]).
    split; [intros ->; reflexivity|].
    destruct l1; [contradiction | reflexivity].
Qed.

End InitialLoad.

Lemma mounted_outcome_witness :
  exists w' notices,
    Reconciler.mounted (H := Sample.host) 2 Sample.catalogue "credential"
      (Reconciler.initial Sample.numeric) = Some (w', notices)
    /\ Reconciler.hcloud w' = Some "credential"
    /\ Reconciler.loadingData w' = false
    /\ notices = [].
Proof.
  destruct (Reconciler.mounted (H := Sample.host) 2 Sample.catalogue
              "credential" (Reconciler.initial Sample.numeric))
    as [[w' notices]|] eqn:Hmounted; [|vm_compute in Hmounted; discriminate].
  exists w', notices. split; [reflexivity|].
  destruct (mounted_outcome (host := Sample.host) 2 Sample.catalogue
              "credential" (Reconciler.initial Sample.numeric) w' notices
              Hmounted)
    as (Hloading & _ & _ & _ & _ & Hloaded).
  destruct (Hloaded ltac:(discriminate))
    as (Hclient & Hlocations & _ & _ & _ & _ & _ & _ & _ & Hquiet).
  split; [exact Hclient|]. split; [exact Hloading|].
  apply Hquiet. intros Hnone. rewrite Hnone in Hlocations.
  vm_compute in Hlocations. discriminate.
Defined.

(** ** More on the two copies of the client and on the load *)

Section MoreOperations.
Import Transport HetznerCloud.
Context `{host : Host}.

(** X16. The operations for placement groups, networks, firewalls and ssh
    keys return one option per fetched item, in the order in which the
    provider served the items: the values of the options are the ids of
    the items, in that order, and none of the options is a header. *)
Theorem unsorted_kinds_keep_server_order (k : Kind) (fuel : nat) (api : Api)
    (opts : list HetznerOption) :
  k = PlacementGroups \/ k = Networks \/ k = Firewalls \/ k = SshKeys ->
  fetch k fuel api = Some (Return opts) ->
  map value opts = fetched_keys k fuel api
  /\ Forall (fun o => ~ is_header o) opts.
Proof.
  intros Hkind Hfetch.
  assert (Hnamed : forall items,
             map value (namedOptions items)
             = map (fun i => VNum (NamedResponse.id i)) items
             /\ Forall (fun o => ~ is_header o) (namedOptions items)).
  { intros items. unfold namedOptions.
    rewrite (guarded_map (map namedOption)) by reflexivity.
    split; [apply map_map|]. apply List.Forall_forall. intros o Ho.
    apply in_map_iff in Ho. destruct Ho as (i & <- & _). discriminate. }
  destruct Hkind as [-> | [-> | [-> | ->]]]; simpl in Hfetch |- *;
    apply fetchKind_result in Hfetch; try reflexivity; subst opts;
    try apply Hnamed.
  unfold networkOptions.
  rewrite (guarded_map (map networkOption)) by reflexivity.
  split; [apply map_map|]. apply List.Forall_forall. intros o Ho.
  apply in_map_iff in Ho. destruct Ho as (i & <- & _). discriminate.
Qed.

Lemma once_settles {A} (transform : list A -> list HetznerOption)
    (transport : nat -> Outcome A) :
  (exists opts, HetznerCloudSinglePage.once transform transport = Return opts)
  /\ (failure (transport 1%nat) ->
      HetznerCloudSinglePage.once transform transport = Return []).
Proof.
  unfold HetznerCloudSinglePage.once. split.
  - destruct (request transport 1%nat) as [response|err]; [|eauto].
    destruct (items response); eauto.
  - intros Hfail. apply request_failure in Hfail. destruct Hfail as [err ->].
    reflexivity.
Qed.

(** X18. No operation of the single-request copy of the client rejects:
    each returns a list, and the empty list when its request fails
    (network error, status outside 2xx, body that does not parse). *)
Theorem single_request_never_throws (k : Kind) (api : Api) :
  (exists opts, HetznerCloudSinglePage.fetch k api = Return opts)
  /\ for_kind
       (fun A transport transform =>
          failure (transport 1%nat) ->
          HetznerCloudSinglePage.fetch k api = Return [])
       k api.
Proof.
  destruct k; simpl;
    first [ apply once_settles
          | apply (once_settles
                     (fun found => map locationOption
                                     (Array_sort compareLocations found))) ].
Qed.

End MoreOperations.

Lemma unsorted_kinds_keep_server_order_witness :
  map value [HetznerCloud.networkOption Sample.backend;
             HetznerCloud.networkOption Sample.frontend]
  = HetznerCloud.fetched_keys HetznerCloud.Networks 1 Sample.stocked.
Proof.
  apply (unsorted_kinds_keep_server_order (host := Sample.host)
           HetznerCloud.Networks 1 Sample.stocked
           [HetznerCloud.networkOption Sample.backend;
            HetznerCloud.networkOption Sample.frontend]).
  - right. left. reflexivity.
  - vm_compute. reflexivity.
Defined.

Lemma single_request_never_throws_witness :
  HetznerCloudSinglePage.fetch (host := Sample.host) HetznerCloud.Images
    Sample.catalogue = Return [].
Proof.
  pose proof (proj2 (single_request_never_throws (host := Sample.host)
                       HetznerCloud.Images Sample.catalogue)) as Hfails.
  simpl in Hfails. apply Hfails. left. reflexivity.
Defined.

Section LoadThenChange.
Import Transport Reconciler.
Context `{host : Host}.

Lemma mounted_client fuel api credentialId w w' notices :
  credentialId <> "" ->
  mounted fuel api credentialId w = Some (w', notices) ->
  hcloud w' = Some credentialId.
Proof.
  intros Hcredential. unfold mounted, onMounted.
  destruct credentialId as [|c credentialId]; [contradiction|].
  cbn [JS.truthy_string negb].
  destruct (loadAll fuel api) as [[loaded|err]|]; [| |discriminate].
  - destruct loaded as (l1 & l2 & l3 & l4 & l5 & l6 & l7).
    intros [= <- _]. reflexivity.
  - intros [= <- _]. reflexivity.
Qed.

(** X17. After [onMounted] has finished with a credential id, the guard
    of the location watcher is open: a change of location stores the
    refetched instance types, clears a selection they do not offer and
    takes the loading indicator down again. *)
Theorem location_change_after_mount (fuel fuel' : nat) (api api' : Api)
    (credentialId : string) (w w' : state) (notices : list Notice)
    (opts : list HetznerOption) :
  credentialId <> "" ->
  mounted fuel api credentialId w = Some (w', notices) ->
  HetznerCloud.getServerTypes fuel' api'
    (C.serverLocation (serverConfiguration w')) = Some (Return opts) ->
  exists w'',
    locationChanged fuel' api' w' = Some w''
    /\ o_serverTypes (hetznerOptions w'') = opts
    /\ loadingData w'' = false
    /\ forall selected,
         C.serverType (serverConfiguration w'') = Some selected ->
         In (VStr selected) (map value opts).
Proof.
  intros Hcredential Hmounted Hfetch.
  pose proof (mounted_client _ _ _ _ _ _ Hcredential Hmounted) as Hclient.
  unfold locationChanged. rewrite Hclient, Hfetch. eexists.
  split; [reflexivity|].
  pose proof (locationWatcher_resumed_spec opts (locationWatcher w'))
    as (Hopts & Hloading & Hkept & Hcleared).
  unfold locationWatcher in *. rewrite Hclient in *.
  cbn [with_loadingData serverConfiguration] in *.
  split; [exact Hopts|]. split; [exact Hloading|].
  intros selected Hselected.
  destruct (C.serverType (serverConfiguration w')) as [before|] eqn:Hbefore.
  - destruct (existsb (is_selected (Some before)) opts) eqn:Hfound.
    + apply is_selected_In in Hfound.
      rewrite (Hkept before eq_refl Hfound) in Hselected.
      rewrite Hbefore in Hselected. injection Hselected as <-. exact Hfound.
    + rewrite Hcleared in Hselected; [discriminate|].
      intros s [= <-] Hin. apply is_selected_In in Hin. congruence.
  - rewrite Hcleared in Hselected; [discriminate|]. intros s [=].
Qed.

End LoadThenChange.

Lemma location_change_after_mount_witness :
  exists w' notices w'',
    Reconciler.mounted (H := Sample.host) 2 Sample.catalogue "credential"
      (Sample.holding Sample.moved) = Some (w', notices)
    /\ Reconciler.locationChanged (H := Sample.host) 2 Sample.catalogue w'
       = Some w''
    /\ Reconciler.o_serverTypes (Reconciler.hetznerOptions w'')
       = Sample.hel1_types.
Proof.
  destruct (Reconciler.mounted (H := Sample.host) 2 Sample.catalogue
              "credential" (Sample.holding Sample.moved))
    as [[w' notices]|] eqn:Hmounted; [|vm_compute in Hmounted; discriminate].
  assert (Hlocation : ServerConfiguration.serverLocation
                        (Reconciler.serverConfiguration w') = Some "hel1").
  { vm_compute in Hmounted. injection Hmounted as <- _. reflexivity. }
  destruct (location_change_after_mount (host := Sample.host) 2 2
              Sample.catalogue Sample.catalogue "credential"
              (Sample.holding Sample.moved) w' notices Sample.hel1_types)
    as (w'' & Hchanged & Hopts & _).
  - discriminate.
  - exact Hmounted.
  - rewrite Hlocation. vm_compute. reflexivity.
  - exists w', notices, w''. auto.
Defined.
